(** * Calculator.py: the whitelisting expression evaluator [SafeEval]

    A shallow embedding of [SafeEval] (Python Projects/Calculator.py) and the
    properties its specification states about it.

    Modelling conventions.
    - The input of the evaluator is the tree returned by
      [ast.parse(expr, mode="exec")]; the parser itself belongs to the Python
      runtime and is not part of the program.
    - Python objects that the evaluator can produce are [value]s.  Integers
      are unbounded ([Z]); [bool] is the subclass of [int] it is in Python.
      Floating-point and complex numbers are carried by two types of the
      host ([HostTypes]) and computed by host operations ([Host]); the integer
      and boolean fragment is written out in full.
    - [self.vars] is a dictionary object living in a store of dictionaries
      ([heap]); a [SafeEval] object holds its address.  Dictionaries passed by
      a caller live in the same store, so aliasing is visible.
    - Methods are computations in a state-and-exception monad [M]: a raised
      exception keeps the store reached so far, as in Python.
    - The state also carries a ghost [log] which records every entry into
      [_eval_expr] and every invocation of a whitelisted function.  Nothing
      reads it; it makes the order of evaluation observable.
    - Python's recursion limit is not modelled. *)

From Stdlib Require Import ZArith QArith Qround Qabs String List.
From stdpp Require Import base option list gmap strings sorting pretty.

(** ** Exceptions and results *)

Inductive exc_class := ValueError | TypeError | ZeroDivisionError | OverflowError.

(** [ZeroDivisionError] and [OverflowError] derive from [ArithmeticError]. *)
Definition is_ArithmeticError (c : exc_class) : bool :=
  match c with
  | ZeroDivisionError | OverflowError => true
  | ValueError | TypeError => false
  end.

Record exn := Exc { exc_type : exc_class; exc_msg : string }.

Inductive result (A : Type) :=
  | Ok (a : A)
  | Raise (e : exn).
Arguments Ok {A} a.
Arguments Raise {A} e.

Definition result_bind {A B} (r : result A) (k : A -> result B) : result B :=
  match r with
  | Ok a => k a
  | Raise e => Raise e
  end.

Definition result_map {A B} (f : A -> B) (r : result A) : result B :=
  result_bind r (fun a => Ok (f a)).

(** ** Host numbers *)

Class HostTypes := { float : Type; complex : Type }.

(** ** The syntax trees of module [ast] *)

Module ast.

Inductive operator :=
  | Add | Sub | Mult | MatMult | Div | Mod | Pow
  | LShift | RShift | BitOr | BitXor | BitAnd | FloorDiv.

Inductive unaryop := Invert | Not | UAdd | USub.

Inductive cmpop := Eq | NotEq | Lt | LtE | Gt | GtE | Is | IsNot | In | NotIn.

Inductive boolop := And | Or.

(** [type(op).__name__] *)
Definition operator_name (o : operator) : string :=
  match o with
  | Add => "Add" | Sub => "Sub" | Mult => "Mult" | MatMult => "MatMult"
  | Div => "Div" | Mod => "Mod" | Pow => "Pow" | LShift => "LShift"
  | RShift => "RShift" | BitOr => "BitOr" | BitXor => "BitXor"
  | BitAnd => "BitAnd" | FloorDiv => "FloorDiv"
  end.

Definition unaryop_name (o : unaryop) : string :=
  match o with
  | Invert => "Invert" | Not => "Not" | UAdd => "UAdd" | USub => "USub"
  end.

Section Trees.
Context `{HostTypes}.

(** The payload of an [ast.Constant] node. *)
Inductive constant :=
  | CInt (n : Z)
  | CBool (b : bool)
  | CFloat (x : float)
  | CComplex (c : complex)
  | CStr (s : string)
  | CBytes (s : string)
  | CNone
  | CEllipsis.

#[local] Unset Elimination Schemes.

(** Expression nodes.  [OtherExpr kind] stands for a node of any other class
    of [ast.expr] (Attribute, Subscript, List, Dict, Lambda, Starred,
    JoinedStr, ...), [kind] being the class name. *)
Inductive expr :=
  | Constant (value : constant)
  | Name (id : string)
  | BinOp (left : expr) (op : operator) (right : expr)
  | UnaryOp (op : unaryop) (operand : expr)
  | Call (func : expr) (args : list expr) (keywords : list (option string * expr))
  | Compare (left : expr) (ops : list cmpop) (comparators : list expr)
  | BoolOp (op : boolop) (values : list expr)
  | IfExp (test : expr) (body : expr) (orelse : expr)
  | Tuple (elts : list expr)
  | OtherExpr (kind : string).

#[local] Set Elimination Schemes.

(** Statement nodes; [OtherStmt] is any statement that is neither an
    [ast.Expr] nor an [ast.Assign]. *)
Inductive stmt :=
  | Expr (value : expr)
  | Assign (targets : list expr) (value : expr)
  | OtherStmt (kind : string).

(** What [ast.parse(expr, mode="exec")] does: raise [SyntaxError] with a
    message, or return a [Module] with a body. *)
Inductive parsed :=
  | SyntaxError (msg : string)
  | Module_ (body : list stmt).

(** Induction over expression trees, with the induction hypothesis for every
    child that is itself evaluated. *)
Section Induction.
Variable P : expr -> Prop.
Hypothesis HConstant : forall c, P (Constant c).
Hypothesis HName : forall id, P (Name id).
Hypothesis HBinOp : forall l o r, P l -> P r -> P (BinOp l o r).
Hypothesis HUnaryOp : forall o e, P e -> P (UnaryOp o e).
Hypothesis HCall : forall f args kw, Forall P args -> P (Call f args kw).
Hypothesis HCompare : forall l ops comps, P l -> Forall P comps -> P (Compare l ops comps).
Hypothesis HBoolOp : forall o values, Forall P values -> P (BoolOp o values).
Hypothesis HIfExp : forall t b e, P t -> P b -> P e -> P (IfExp t b e).
Hypothesis HTuple : forall elts, Forall P elts -> P (Tuple elts).
Hypothesis HOtherExpr : forall kind, P (OtherExpr kind).

Fixpoint expr_ind (e : expr) : P e :=
  let all :=
    fix all (l : list expr) : Forall P l :=
      match l with
      | [] => @List.Forall_nil _ P
      | x :: l' => @List.Forall_cons _ P x l' (expr_ind x) (all l')
      end in
  match e with
  | Constant c => HConstant c
  | Name id => HName id
  | BinOp l o r => HBinOp l o r (expr_ind l) (expr_ind r)
  | UnaryOp o e' => HUnaryOp o e' (expr_ind e')
  | Call f args kw => HCall f args kw (all args)
  | Compare l ops comps => HCompare l ops comps (expr_ind l) (all comps)
  | BoolOp o values => HBoolOp o values (all values)
  | IfExp t b e' => HIfExp t b e' (expr_ind t) (expr_ind b) (expr_ind e')
  | Tuple elts => HTuple elts (all elts)
  | OtherExpr kind => HOtherExpr kind
  end.

End Induction.

End Trees.

End ast.

(** ** Values *)

Section Values.
Context `{HostTypes}.

#[local] Unset Elimination Schemes.

Inductive value :=
  | VInt (n : Z)
  | VBool (b : bool)
  | VFloat (x : float)
  | VComplex (c : complex)
  | VTuple (elts : list value).

#[local] Set Elimination Schemes.

(** The integer behind an [int] or a [bool]. *)
Definition as_int (v : value) : option Z :=
  match v with
  | VInt n => Some n
  | VBool b => Some (Z.b2z b)
  | _ => None
  end.

End Values.

(** ** Host operations

    What the Python runtime computes outside the integer fragment.  The
    number slots and comparison codes are named as in CPython.
    The messages of the exceptions the runtime raises differ between CPython
    versions; no statement below depends on them.
    [float_of_int] is [None] when the integer is too large for a float.
    [float_arith] is never asked for [nb_power], and for the three division
    slots only with a non-zero divisor.  [other_binary], [other_unary] and
    [rich_compare] receive the operand combinations that module [op] below
    does not write out (complex numbers and tuples; for comparisons also
    floats). *)

Inductive number_slot :=
  | nb_add | nb_subtract | nb_multiply | nb_true_divide | nb_floor_divide
  | nb_remainder | nb_power.

Inductive unary_slot := nb_positive | nb_negative.

Inductive compare_code := Py_EQ | Py_NE | Py_LT | Py_LE | Py_GT | Py_GE.

Class Host `{HostTypes} := {
  float_of_int : Z -> option float;
  float_is_zero : float -> bool;
  float_arith : number_slot -> float -> float -> float;
  float_pow : float -> float -> result value;
  int_truediv : Z -> Z -> result value;
  other_binary : number_slot -> value -> value -> result value;
  other_unary : unary_slot -> value -> result value;
  rich_compare : compare_code -> value -> value -> result bool;
  complex_is_zero : complex -> bool;
  call_builtin : string -> list value -> result value;
  math_pi : float;
  math_e : float;
  math_tau : float;
  (* the float of the integer 0 is a zero *)
  float_of_int_zero : forall x, float_of_int 0 = Some x -> float_is_zero x = true
}.

(** ** Module [operator] (imported as [op]) and truth testing *)

Module op.
Section Operators.
Context `{Host}.

Definition int_to_float (n : Z) : result float :=
  match float_of_int n with
  | Some x => Ok x
  | None => Raise (Exc OverflowError "int too large to convert to float")
  end.

(** The float an [int], [bool] or [float] operand is converted to when the
    other operand is a float; [None] for the other types. *)
Definition to_float (v : value) : option (result float) :=
  match v with
  | VFloat x => Some (Ok x)
  | VInt n => Some (int_to_float n)
  | VBool b => Some (int_to_float (Z.b2z b))
  | _ => None
  end.

Definition float_binary (slot : number_slot) (x y : float) : result value :=
  match slot with
  | nb_add | nb_subtract | nb_multiply => Ok (VFloat (float_arith slot x y))
  | nb_true_divide | nb_floor_divide | nb_remainder =>
      if float_is_zero y
      then Raise (Exc ZeroDivisionError "float division by zero")
      else Ok (VFloat (float_arith slot x y))
  | nb_power => float_pow x y
  end.

Definition int_binary (slot : number_slot) (x y : Z) : result value :=
  match slot with
  | nb_add => Ok (VInt (x + y))
  | nb_subtract => Ok (VInt (x - y))
  | nb_multiply => Ok (VInt (x * y))
  | nb_true_divide =>
      if (y =? 0)%Z then Raise (Exc ZeroDivisionError "division by zero")
      else int_truediv x y
  | nb_floor_divide =>
      if (y =? 0)%Z
      then Raise (Exc ZeroDivisionError "integer division or modulo by zero")
      else Ok (VInt (x / y))
  | nb_remainder =>
      if (y =? 0)%Z
      then Raise (Exc ZeroDivisionError "integer division or modulo by zero")
      else Ok (VInt (x mod y))
  | nb_power =>
      if (y <? 0)%Z
      then result_bind (int_to_float x) (fun fx =>
           result_bind (int_to_float y) (fun fy => float_pow fx fy))
      else Ok (VInt (x ^ y))
  end.

(** Binary arithmetic: two integers stay integers (a [bool] counts as an
    integer); an integer and a float, or two floats, are computed as floats,
    both operands being converted before the operation looks at them; every
    other combination is the host's. *)
Definition binary (slot : number_slot) (a b : value) : result value :=
  match as_int a, as_int b with
  | Some x, Some y => int_binary slot x y
  | _, _ =>
      match to_float a, to_float b with
      | Some ra, Some rb =>
          result_bind ra (fun x => result_bind rb (fun y => float_binary slot x y))
      | _, _ => other_binary slot a b
      end
  end.

Definition add := binary nb_add.
Definition sub := binary nb_subtract.
Definition mul := binary nb_multiply.
Definition truediv := binary nb_true_divide.
Definition floordiv := binary nb_floor_divide.
Definition mod_ := binary nb_remainder.
Definition pow := binary nb_power.

Definition unary (slot : unary_slot) (a : value) : result value :=
  match as_int a with
  | Some x =>
      match slot with
      | nb_positive => Ok (VInt x)
      | nb_negative => Ok (VInt (- x))
      end
  | None => other_unary slot a
  end.

Definition pos := unary nb_positive.
Definition neg := unary nb_negative.

Definition int_compare (code : compare_code) (x y : Z) : bool :=
  match code with
  | Py_EQ => (x =? y)%Z
  | Py_NE => negb (x =? y)%Z
  | Py_LT => (x <? y)%Z
  | Py_LE => (x <=? y)%Z
  | Py_GT => (x >? y)%Z
  | Py_GE => (x >=? y)%Z
  end.

Definition compare (code : compare_code) (a b : value) : result value :=
  match as_int a, as_int b with
  | Some x, Some y => Ok (VBool (int_compare code x y))
  | _, _ => result_map VBool (rich_compare code a b)
  end.

Definition eq := compare Py_EQ.
Definition ne := compare Py_NE.
Definition lt := compare Py_LT.
Definition le := compare Py_LE.
Definition gt := compare Py_GT.
Definition ge := compare Py_GE.

(** [bool(v)], the test behind [if v], [not v] and the conditional
    expression. *)
Definition truth (v : value) : bool :=
  match v with
  | VInt n => negb (n =? 0)%Z
  | VBool b => b
  | VFloat x => negb (float_is_zero x)
  | VComplex c => negb (complex_is_zero c)
  | VTuple elts => match elts with [] => false | _ :: _ => true end
  end.

End Operators.
End op.

(** ** The whitelists of Calculator.py *)

Section Tables.
Context `{Host}.

Definition _BIN_OPS (o : ast.operator) : option (value -> value -> result value) :=
  match o with
  | ast.Add => Some op.add
  | ast.Sub => Some op.sub
  | ast.Mult => Some op.mul
  | ast.Div => Some op.truediv
  | ast.FloorDiv => Some op.floordiv
  | ast.Mod => Some op.mod_
  | ast.Pow => Some op.pow
  | _ => None
  end.

Definition _UNARY_OPS (o : ast.unaryop) : option (value -> result value) :=
  match o with
  | ast.UAdd => Some op.pos
  | ast.USub => Some op.neg
  | _ => None
  end.

Definition _CMP_OPS (o : ast.cmpop) : option (value -> value -> result value) :=
  match o with
  | ast.Eq => Some op.eq
  | ast.NotEq => Some op.ne
  | ast.Lt => Some op.lt
  | ast.LtE => Some op.le
  | ast.Gt => Some op.gt
  | ast.GtE => Some op.ge
  | _ => None
  end.

Definition allowed_func_names : list string :=
  ["abs"; "round"; "sqrt"; "sin"; "cos"; "tan"; "log"; "log10"; "exp"; "pow";
   "max"; "min"].

(** Each whitelisted name is bound to the builtin or [math] function of the
    same name, which the host computes. *)
Definition _ALLOWED_FUNCS (name : string) : option (list value -> result value) :=
  if bool_decide (name ∈ allowed_func_names)
  then Some (call_builtin name)
  else None.

Definition _ALLOWED_CONSTS (name : string) : option value :=
  if String.eqb name "pi" then Some (VFloat math_pi)
  else if String.eqb name "e" then Some (VFloat math_e)
  else if String.eqb name "tau" then Some (VFloat math_tau)
  else None.

End Tables.

(** ** The store and the monad of methods *)

Abbreviation loc := positive.

Section Machine.
Context `{Host}.

Inductive event :=
  | Enter (node : ast.expr)
  | Invoke (func_name : string) (args : list value).

Record state := State {
  heap : gmap loc (gmap string value);
  log : list event
}.

Definition M (A : Type) : Type := state -> result A * state.

Definition ret {A} (a : A) : M A := fun s => (Ok a, s).

Definition raise {A} (e : exn) : M A := fun s => (Raise e, s).

Definition bind {A B} (m : M A) (k : A -> M B) : M B :=
  fun s =>
    match m s with
    | (Ok a, s') => k a s'
    | (Raise e, s') => (Raise e, s')
    end.

(** The outcome of a runtime operation: its value, or its exception. *)
Definition lift {A} (r : result A) : M A := fun s => (r, s).

Definition tick (ev : event) : M unit :=
  fun s => (Ok tt, State (heap s) (log s ++ [ev])).

(** The contents of the dictionary at [l].  An address that is not in the
    store reads as the empty dictionary; the addresses the program holds are
    always in the store. *)
Definition load (l : loc) : M (gmap string value) :=
  fun s => (Ok (heap s !!! l), s).

(** [d[k] = v] on the dictionary [d] at [l]: the object is updated in
    place. *)
Definition setitem (l : loc) (k : string) (v : value) : M unit :=
  fun s => (Ok tt, State (<[l := <[k := v]> (heap s !!! l)]> (heap s)) (log s)).

(** [dict(d)] or [{}]: a new dictionary object. *)
Definition new_dict (d : gmap string value) : M loc :=
  fun s =>
    let l := fresh (dom (heap s)) in
    (Ok l, State (<[l := d]> (heap s)) (log s)).

End Machine.

Declare Scope py_scope.
Delimit Scope py_scope with py.
Notation "'let*' x := m 'in' k" := (bind m (fun x => k))
  (at level 10, x name, m at level 100, k at level 200) : py_scope.
Notation "m ;; k" := (bind m (fun _ => k))
  (at level 100, k at level 200, right associativity) : py_scope.
Local Open Scope py_scope.

(** The loops of [_eval_expr], over the recursive call [visit]. *)

Section Loops.
Context `{Host}.
Variable visit : ast.expr -> M value.

(** [[visit(a) for a in l]], also [tuple(visit(elt) for elt in l)] *)
Fixpoint each (l : list ast.expr) : M (list value) :=
  match l with
  | [] => ret []
  | a :: l' =>
      let* v := visit a in
      let* vs := each l' in
      ret (v :: vs)
  end.

(** The chained comparison:
    [for op_node, comp_node in zip(node.ops, node.comparators)], with
    [result = False; break] on the first link that does not hold. *)
Fixpoint chain (comps : list ast.expr) (ops : list ast.cmpop)
    (current_left : value) {struct comps} : M value :=
  match ops, comps with
  | op_node :: ops', comp_node :: comps' =>
      let* right_val := visit comp_node in
      match _CMP_OPS op_node with
      | None => raise (Exc ValueError "Comparison operator not allowed.")
      | Some f =>
          let* holds := lift (f current_left right_val) in
          if negb (op.truth holds) then ret (VBool false)
          else chain comps' ops' right_val
      end
  | _, _ => ret (VBool true)
  end.

(** [for v in values: if not visit(v): return False], then [return True] *)
Fixpoint all_truthy (values : list ast.expr) : M value :=
  match values with
  | [] => ret (VBool true)
  | v :: values' =>
      let* x := visit v in
      if negb (op.truth x) then ret (VBool false) else all_truthy values'
  end.

(** [for v in values: if visit(v): return True], then [return False] *)
Fixpoint any_truthy (values : list ast.expr) : M value :=
  match values with
  | [] => ret (VBool false)
  | v :: values' =>
      let* x := visit v in
      if op.truth x then ret (VBool true) else any_truthy values'
  end.

End Loops.

(** ** class SafeEval *)

Section SafeEval.
Context `{Host}.

Record SafeEval := { vars : loc }.

Definition __init__ (variables : option loc) : M SafeEval :=
  let* l :=
    match variables with
    | None => new_dict ∅
    | Some caller => let* d := load caller in new_dict d
    end in
  ret {| vars := l |}.

Fixpoint _eval_expr (self : SafeEval) (node : ast.expr) {struct node} : M value :=
  tick (Enter node) ;;
  match node with
  | ast.Constant c =>
      match c with
      | ast.CInt n => ret (VInt n)
      | ast.CFloat x => ret (VFloat x)
      | ast.CBool b => ret (VBool b)
      | _ => raise (Exc ValueError "Only numeric and boolean constants are allowed.")
      end
  | ast.Name id =>
      let* d := load (vars self) in
      match d !! id with
      | Some v => ret v
      | None =>
          match _ALLOWED_CONSTS id with
          | Some v => ret v
          | None => raise (Exc ValueError ("Unknown variable or constant: " +:+ id))
          end
      end
  | ast.BinOp l o r =>
      let* left := _eval_expr self l in
      let* right := _eval_expr self r in
      match _BIN_OPS o with
      | Some f => lift (f left right)
      | None => raise (Exc ValueError ("Operator not allowed: " +:+ ast.operator_name o))
      end
  | ast.UnaryOp o e =>
      let* operand := _eval_expr self e in
      match _UNARY_OPS o with
      | Some f => lift (f operand)
      | None =>
          raise (Exc ValueError ("Unary operator not allowed: " +:+ ast.unaryop_name o))
      end
  | ast.Call func args keywords =>
      match func with
      | ast.Name func_name =>
          match _ALLOWED_FUNCS func_name with
          | None => raise (Exc ValueError ("Function not allowed: " +:+ func_name))
          | Some f =>
              let* args := each (_eval_expr self) args in
              match keywords with
              | _ :: _ => raise (Exc ValueError "Keyword arguments are not allowed.")
              | [] => tick (Invoke func_name args) ;; lift (f args)
              end
          end
      | _ => raise (Exc ValueError "Only direct function calls are allowed.")
      end
  | ast.Compare l ops comparators =>
      match ops, comparators with
      | [op0], [c0] =>
          (* Simple binary comparison *)
          let* left := _eval_expr self l in
          let* right := _eval_expr self c0 in
          match _CMP_OPS op0 with
          | Some f => lift (f left right)
          | None => raise (Exc ValueError "Comparison operator not allowed.")
          end
      | _, _ =>
          (* len(node.ops) != 1 or len(node.comparators) != 1 *)
          let* left_val := _eval_expr self l in
          chain (_eval_expr self) comparators ops left_val
      end
  | ast.BoolOp ast.And values => all_truthy (_eval_expr self) values
  | ast.BoolOp ast.Or values => any_truthy (_eval_expr self) values
  | ast.IfExp test body orelse =>
      let* t := _eval_expr self test in
      if op.truth t then _eval_expr self body else _eval_expr self orelse
  | ast.Tuple elts =>
      let* vs := each (_eval_expr self) elts in
      ret (VTuple vs)
  | ast.OtherExpr kind => raise (Exc ValueError ("Unsupported expression: " +:+ kind))
  end.

(** The loop of [eval] over [tree.body], from a given [last_value]. *)
Fixpoint eval_body (self : SafeEval) (body : list ast.stmt)
    (last_value : option value) : M (option value) :=
  match body with
  | [] => ret last_value
  | node :: rest =>
      match node with
      | ast.Assign targets e =>
          match targets with
          | [target] =>
              match target with
              | ast.Name id =>
                  let* v := _eval_expr self e in
                  setitem (vars self) id v ;;
                  eval_body self rest (Some v)
              | _ => raise (Exc ValueError "Can only assign to variable names.")
              end
          | _ => raise (Exc ValueError "Only single-target assignment is allowed.")
          end
      | ast.Expr e =>
          let* v := _eval_expr self e in
          eval_body self rest (Some v)
      | ast.OtherStmt _ =>
          raise (Exc ValueError "Only expressions and simple assignments are allowed.")
      end
  end.

(** [eval], from the outcome of [ast.parse(expr, mode="exec")] on.  The
    result [None] is Python's [None]. *)
Definition eval (self : SafeEval) (tree : ast.parsed) : M (option value) :=
  match tree with
  | ast.SyntaxError msg => raise (Exc ValueError ("Syntax error: " +:+ msg))
  | ast.Module_ body =>
      match body with
      | [] => ret None
      | [ast.Expr e] => let* v := _eval_expr self e in ret (Some v)
      | _ => eval_body self body None
      end
  end.

End SafeEval.

(** ** A host for closed examples

    [exact_host] makes the model executable on concrete programs.  Its
    inexact numbers are exact rationals (there is no rounding), it has no
    complex numbers, and it refuses with an exception what it does not
    provide: irrational powers and the functions of [math].  Tuples are
    concatenated, repeated and compared as Python does.  The examples below
    stay within integers and booleans, where module [op] does not consult
    the host, and call no builtin other than [abs] and [max]. *)

Module exact.

#[export] Instance exact_types : HostTypes := {| float := Q; complex := Empty_set |}.

Definition number (v : value) : option Q :=
  match v with
  | VInt n => Some (inject_Z n)
  | VBool b => Some (inject_Z (Z.b2z b))
  | VFloat x => Some x
  | _ => None
  end.

(** Three-way comparison; [None] when the operands differ and have no
    order. *)
Fixpoint cmp3 (a b : value) {struct a} : option comparison :=
  match a, b with
  | VTuple l1, VTuple l2 =>
      (fix lex (l1 l2 : list value) {struct l1} : option comparison :=
         match l1, l2 with
         | [], [] => Some Datatypes.Eq
         | [], _ :: _ => Some Datatypes.Lt
         | _ :: _, [] => Some Datatypes.Gt
         | x :: l1', y :: l2' =>
             match cmp3 x y with
             | Some Datatypes.Eq => lex l1' l2'
             | c => c
             end
         end) l1 l2
  | _, _ =>
      match number a, number b with
      | Some x, Some y => Some (x ?= y)%Q
      | _, _ => None
      end
  end.

Definition decide_code (code : compare_code) (c : comparison) : bool :=
  match code, c with
  | Py_EQ, Datatypes.Eq | Py_LE, Datatypes.Eq | Py_GE, Datatypes.Eq => true
  | Py_NE, Datatypes.Lt | Py_LT, Datatypes.Lt | Py_LE, Datatypes.Lt => true
  | Py_NE, Datatypes.Gt | Py_GT, Datatypes.Gt | Py_GE, Datatypes.Gt => true
  | _, _ => false
  end.

Definition compare (code : compare_code) (a b : value) : result bool :=
  match cmp3 a b with
  | Some c => Ok (decide_code code c)
  | None =>
      match code with
      | Py_EQ => Ok false
      | Py_NE => Ok true
      | _ => Raise (Exc TypeError "'<' not supported between these instances")
      end
  end.

Definition arith (slot : number_slot) (x y : Q) : Q :=
  match slot with
  | nb_add => x + y
  | nb_subtract => x - y
  | nb_multiply => x * y
  | nb_true_divide => x / y
  | nb_floor_divide => inject_Z (Qfloor (x / y))
  | nb_remainder => x - y * inject_Z (Qfloor (x / y))
  | nb_power => 0
  end%Q.

Definition power (x y : Q) : result value :=
  if negb (Qden y =? 1)%positive
  then Raise (Exc OverflowError "power not provided by this host")
  else if Qeq_bool x 0 && (Qnum y <? 0)%Z
  then Raise (Exc ZeroDivisionError "0.0 cannot be raised to a negative power")
  else Ok (VFloat (Qpower x (Qnum y))).

Definition truediv (x y : Z) : result value :=
  Ok (VFloat (inject_Z x / inject_Z y)%Q).

Definition binary (slot : number_slot) (a b : value) : result value :=
  match slot, a, b with
  | nb_add, VTuple l1, VTuple l2 => Ok (VTuple (l1 ++ l2))
  | nb_multiply, VTuple l, n | nb_multiply, n, VTuple l =>
      match as_int n with
      | Some k => Ok (VTuple (concat (replicate (Z.to_nat k) l)))
      | None => Raise (Exc TypeError "can't multiply sequence by non-int")
      end
  | _, _, _ => Raise (Exc TypeError "unsupported operand type(s)")
  end.

Definition unary (slot : unary_slot) (a : value) : result value :=
  match slot, a with
  | nb_positive, VFloat x => Ok (VFloat x)
  | nb_negative, VFloat x => Ok (VFloat (- x)%Q)
  | _, _ => Raise (Exc TypeError "bad operand type for unary operator")
  end.

(** The first largest (or smallest) of [v :: vs], as [max] and [min] return
    it. *)
Fixpoint extreme (code : compare_code) (v : value) (vs : list value) : result value :=
  match vs with
  | [] => Ok v
  | w :: vs' =>
      result_bind (compare code w v) (fun better =>
        extreme code (if better then w else v) vs')
  end.

Definition builtin (name : string) (args : list value) : result value :=
  if String.eqb name "abs" then
    match args with
    | [VFloat x] => Ok (VFloat (Qabs x))
    | [v] =>
        match as_int v with
        | Some n => Ok (VInt (Z.abs n))
        | None => Raise (Exc TypeError "bad operand type for abs()")
        end
    | _ => Raise (Exc TypeError "abs() takes exactly one argument")
    end
  else if String.eqb name "max" then
    match args with
    | v :: (_ :: _) as vs => extreme Py_GT v vs
    | [VTuple (v :: vs)] => extreme Py_GT v vs
    | [VTuple []] => Raise (Exc ValueError "max() arg is an empty sequence")
    | _ => Raise (Exc TypeError "max expected an iterable or two arguments")
    end
  else if String.eqb name "min" then
    match args with
    | v :: (_ :: _) as vs => extreme Py_LT v vs
    | [VTuple (v :: vs)] => extreme Py_LT v vs
    | [VTuple []] => Raise (Exc ValueError "min() arg is an empty sequence")
    | _ => Raise (Exc TypeError "min expected an iterable or two arguments")
    end
  else Raise (Exc TypeError "function not provided by this host").

#[export] Instance exact_host : Host := {|
  float_of_int n := Some (inject_Z n);
  float_is_zero x := Qeq_bool x 0;
  float_arith := arith;
  float_pow := power;
  int_truediv := truediv;
  other_binary := binary;
  other_unary := unary;
  rich_compare := compare;
  complex_is_zero c := match c with end;
  call_builtin := builtin;
  (* the binary64 values of math.pi, math.e and math.tau *)
  math_pi := 884279719003555 # 281474976710656;
  math_e := 6121026514868073 # 2251799813685248;
  math_tau := 884279719003555 # 140737488355328;
  float_of_int_zero := fun x Hx =>
    match Hx in _ = o return
      match o with Some y => Qeq_bool y 0 = true | None => True end
    with eq_refl => eq_refl end
|}.

(** The empty store, and the session [SafeEval()] started in it. *)
Definition s0 : state := State ∅ [].

Definition session : SafeEval * state :=
  match __init__ None s0 with
  | (Ok ev, s) => (ev, s)
  | (Raise _, s) => ({| vars := 1%positive |}, s)
  end.

End exact.


(** ** The programs of the examples, as [ast.parse] returns them *)

Module examples.
Section Programs.
Context `{HostTypes}.

Definition int (n : Z) : ast.expr := ast.Constant (ast.CInt n).

(** [x = 1; x + 1] *)
Definition x_is_1_then_x_plus_1 : ast.parsed :=
  ast.Module_
    [ast.Assign [ast.Name "x"] (int 1);
     ast.Expr (ast.BinOp (ast.Name "x") ast.Add (int 1))].

(** [x = 5] *)
Definition x_is_5 : ast.parsed :=
  ast.Module_ [ast.Assign [ast.Name "x"] (int 5)].

(** [x * 2] *)
Definition x_times_2 : ast.parsed :=
  ast.Module_ [ast.Expr (ast.BinOp (ast.Name "x") ast.Mult (int 2))].

(** [x = 1; y = zzz; z = 3] *)
Definition x_is_1_then_unknown_then_z : ast.parsed :=
  ast.Module_
    [ast.Assign [ast.Name "x"] (int 1);
     ast.Assign [ast.Name "y"] (ast.Name "zzz");
     ast.Assign [ast.Name "z"] (int 3)].

(** [x + 1; zzz] *)
Definition two_expressions : ast.parsed :=
  ast.Module_
    [ast.Expr (ast.BinOp (ast.Name "x") ast.Add (int 1));
     ast.Expr (ast.Name "zzz")].

(** ['x'] *)
Definition string_literal : ast.expr := ast.Constant (ast.CStr "x").

(** [1 < 2 < 3] *)
Definition one_two_three : ast.expr :=
  ast.Compare (int 1) [ast.Lt; ast.Lt] [int 2; int 3].

(** [2 < 1 < zzz] *)
Definition two_one_unknown : ast.expr :=
  ast.Compare (int 2) [ast.Lt; ast.Lt] [int 1; ast.Name "zzz"].

(** [1 and 2], [1 and 0 and zzz], [0 or 0], [0 or 3 or zzz] *)
Definition one_and_two : ast.expr := ast.BoolOp ast.And [int 1; int 2].
Definition one_and_zero_and_unknown : ast.expr :=
  ast.BoolOp ast.And [int 1; int 0; ast.Name "zzz"].
Definition zero_or_zero : ast.expr := ast.BoolOp ast.Or [int 0; int 0].
Definition zero_or_three_or_unknown : ast.expr :=
  ast.BoolOp ast.Or [int 0; int 3; ast.Name "zzz"].

(** [math.sqrt(4)]: the callee is an [ast.Attribute] node *)
Definition attribute_call : ast.expr :=
  ast.Call (ast.OtherExpr "Attribute") [int 4] [].

(** [open('x')] *)
Definition open_call : ast.expr := ast.Call (ast.Name "open") [string_literal] [].

(** [max(1, 5)], [max(zzz, 5)], [max(1, key=2)] *)
Definition max_call : ast.expr := ast.Call (ast.Name "max") [int 1; int 5] [].
Definition max_unknown : ast.expr :=
  ast.Call (ast.Name "max") [ast.Name "zzz"; int 5] [].
Definition max_keyword : ast.expr :=
  ast.Call (ast.Name "max") [int 1] [(Some "key", int 2)].

(** [abs(1)] and [max(abs(1), key=2)] *)
Definition abs_call : ast.expr := ast.Call (ast.Name "abs") [int 1] [].
Definition max_abs_keyword : ast.expr :=
  ast.Call (ast.Name "max") [abs_call] [(Some "key", int 2)].

(** [1 if 1 else zzz], [zzz if 0 else 3], [1 if zzz else 3] *)
Definition taken_then : ast.expr := ast.IfExp (int 1) (int 1) (ast.Name "zzz").
Definition taken_else : ast.expr := ast.IfExp (int 0) (ast.Name "zzz") (int 3).
Definition failing_test : ast.expr := ast.IfExp (ast.Name "zzz") (int 1) (int 3).

(** [(1, 2)] and [(1, zzz, 2)] *)
Definition pair_1_2 : ast.expr := ast.Tuple [int 1; int 2].
Definition tuple_with_unknown : ast.expr := ast.Tuple [int 1; ast.Name "zzz"; int 2].

(** [zzz << 1], [1 << zzz], [1 << 2] *)
Definition unknown_shift_1 : ast.expr := ast.BinOp (ast.Name "zzz") ast.LShift (int 1).
Definition one_shift_unknown : ast.expr := ast.BinOp (int 1) ast.LShift (ast.Name "zzz").
Definition one_shift_2 : ast.expr := ast.BinOp (int 1) ast.LShift (int 2).

(** [1 is 2] *)
Definition one_is_2 : ast.expr := ast.Compare (int 1) [ast.Is] [int 2].

(** [x = 1; a = b = zzz; x = 2] *)
Definition two_targets : ast.stmt :=
  ast.Assign [ast.Name "a"; ast.Name "b"] (ast.Name "zzz").
Definition x_is_1_then_two_targets : ast.parsed :=
  ast.Module_
    [ast.Assign [ast.Name "x"] (int 1); two_targets;
     ast.Assign [ast.Name "x"] (int 2)].

(** [1 <= 1 == 1 != 2 >= 2 > 1], [1 == 2], [2 != 2] *)
Definition six_links : ast.expr :=
  ast.Compare (int 1) [ast.LtE; ast.Eq; ast.NotEq; ast.GtE; ast.Gt]
    [int 1; int 1; int 2; int 2; int 1].
Definition one_eq_2 : ast.expr := ast.Compare (int 1) [ast.Eq] [int 2].
Definition two_ne_2 : ast.expr := ast.Compare (int 2) [ast.NotEq] [int 2].

(** [x = 5; 7] and [zzz; x = 5] *)
Definition x_is_5_then_7 : ast.parsed :=
  ast.Module_ [ast.Assign [ast.Name "x"] (int 5); ast.Expr (int 7)].
Definition unknown_then_x_is_5 : ast.parsed :=
  ast.Module_ [ast.Expr (ast.Name "zzz"); ast.Assign [ast.Name "x"] (int 5)].

End Programs.
End examples.

(** ** What an evaluation yields and leaves in the log *)

Section Observation.
Context `{Host}.

(** The outcome of [_eval_expr] on [node] in store [h], and the events it
    logs. *)
Definition observe (self : SafeEval) (node : ast.expr)
    (h : gmap loc (gmap string value)) : result value * list event :=
  let '(r, s) := _eval_expr self node (State h []) in (r, log s).

(** Evaluating the expressions [es] one after the other, left to right, each
    once, up to the first that raises: the values (or that exception) and the
    events logged. *)
Fixpoint left_to_right (self : SafeEval) (h : gmap loc (gmap string value))
    (es : list ast.expr) : result (list value) * list event :=
  match es with
  | [] => (Ok [], [])
  | e :: es' =>
      match observe self e h with
      | (Ok v, t) =>
          let '(r, ts) := left_to_right self h es' in
          (result_map (cons v) r, t ++ ts)
      | (Raise x, t) => (Raise x, t)
      end
  end.

(** The value a literal of the language stands for: a number or a boolean. *)
Definition literal (c : ast.constant) : option value :=
  match c with
  | ast.CInt n => Some (VInt n)
  | ast.CFloat x => Some (VFloat x)
  | ast.CBool b => Some (VBool b)
  | _ => None
  end.

(** A numeric value ([int], [float] or [bool]) that is zero. *)
Definition is_zero (v : value) : bool :=
  match v with
  | VInt n => (n =? 0)%Z
  | VBool b => negb b
  | VFloat x => float_is_zero x
  | _ => false
  end.

Definition is_number (v : value) : bool :=
  match v with
  | VInt _ | VBool _ | VFloat _ => true
  | _ => false
  end.

(** The native comparison an operator of the language stands for: [==],
    [!=], [<], [<=], [>] and [>=] stand for the comparison of the same
    name, the other comparison operators of the host grammar for none. *)
Definition comparison_of (o : ast.cmpop) : option compare_code :=
  match o with
  | ast.Eq => Some Py_EQ
  | ast.NotEq => Some Py_NE
  | ast.Lt => Some Py_LT
  | ast.LtE => Some Py_LE
  | ast.Gt => Some Py_GT
  | ast.GtE => Some Py_GE
  | ast.Is | ast.IsNot | ast.In | ast.NotIn => None
  end.

(** The link [a o b] of a comparison holds: [o] is an operator of the
    language and the native comparison it stands for is true of [a] and
    [b]. *)
Definition link_holds (o : ast.cmpop) (a b : value) : bool :=
  match comparison_of o with
  | Some code =>
      match op.compare code a b with Ok r => op.truth r | Raise _ => false end
  | None => false
  end.

(** The link [a o b] fails: the native comparison is false of [a] and
    [b]. *)
Definition link_fails (o : ast.cmpop) (a b : value) : bool :=
  match comparison_of o with
  | Some code =>
      match op.compare code a b with
      | Ok r => negb (op.truth r)
      | Raise _ => false
      end
  | None => false
  end.

(** Every adjacent link of [a ops[0] vs[0] ops[1] vs[1] ...] holds. *)
Fixpoint links_hold (a : value) (ops : list ast.cmpop) (vs : list value) : bool :=
  match ops, vs with
  | o :: ops', b :: vs' => link_holds o a b && links_hold b ops' vs'
  | _, _ => true
  end.

(** The last of the values [a :: vs]. *)
Fixpoint final (a : value) (vs : list value) : value :=
  match vs with
  | [] => a
  | b :: vs' => final b vs'
  end.

(** The dictionary [self.vars] in store [h]. *)
Definition environment (self : SafeEval) (h : gmap loc (gmap string value))
    : gmap string value :=
  h !!! vars self.

(** The state after [self.vars[x] = v]. *)
Definition assigned (self : SafeEval) (x : string) (v : value) (s : state) : state :=
  State (<[vars self := <[x := v]> (environment self (heap s))]> (heap s)) (log s).

Definition is_assign (st : ast.stmt) : bool :=
  match st with
  | ast.Assign _ _ => true
  | _ => false
  end.

(** The program has no assignment statement. *)
Definition no_assignment (tree : ast.parsed) : bool :=
  match tree with
  | ast.SyntaxError _ => true
  | ast.Module_ body => forallb (fun st => negb (is_assign st)) body
  end.

(** A computation that leaves the store alone, only appends to the log, and
    does not read the log. *)
Definition framed {A} (m : M A) : Prop :=
  forall h, exists r t, forall l, m (State h l) = (r, State h (l ++ t)).

End Observation.

(** ** Names an expression reads, names a program assigns *)

Section Reads.
Context `{Host}.

(** The variable names in the operand positions of [e]: the names whose
    binding an evaluation of [e] can look up.  The callee of a call is not
    among them, and neither are keyword values: they are never evaluated. *)
Fixpoint names (e : ast.expr) : list string :=
  match e with
  | ast.Constant _ => []
  | ast.Name id => [id]
  | ast.BinOp l _ r => names l ++ names r
  | ast.UnaryOp _ e' => names e'
  | ast.Call _ args _ => concat (map names args)
  | ast.Compare l _ comps => names l ++ concat (map names comps)
  | ast.BoolOp _ values => concat (map names values)
  | ast.IfExp t b e' => names t ++ names b ++ names e'
  | ast.Tuple elts => concat (map names elts)
  | ast.OtherExpr _ => []
  end.

(** The name a well-formed assignment statement binds. *)
Definition target (st : ast.stmt) : option string :=
  match st with
  | ast.Assign [ast.Name id] _ => Some id
  | _ => None
  end.

(** The names the assignment statements of a program bind. *)
Definition targets (tree : ast.parsed) : list string :=
  match tree with
  | ast.SyntaxError _ => []
  | ast.Module_ body => omap target body
  end.

(** The expression a statement evaluates, when it is well formed. *)
Definition evaluated_expr (st : ast.stmt) : option ast.expr :=
  match st with
  | ast.Expr e => Some e
  | ast.Assign [ast.Name _] e => Some e
  | _ => None
  end.

(** The message with which a statement that is not well formed is refused:
    an assignment with several targets, an assignment to something that is
    not a name, any statement that is neither expression nor assignment. *)
Definition refusal (st : ast.stmt) : option string :=
  match st with
  | ast.Expr _ => None
  | ast.Assign [ast.Name _] _ => None
  | ast.Assign [_] _ => Some "Can only assign to variable names."
  | ast.Assign _ _ => Some "Only single-target assignment is allowed."
  | ast.OtherStmt _ => Some "Only expressions and simple assignments are allowed."
  end.

(** An event that is not the invocation of a function outside the
    whitelist. *)
Definition whitelisted (ev : event) : Prop :=
  match ev with
  | Invoke f _ => f ∈ allowed_func_names
  | Enter _ => True
  end.

(** [framed], with a property of the events logged. *)
Definition framed_with (Q : event -> Prop) {A} (m : M A) : Prop :=
  forall h, exists r t,
    (forall l, m (State h l) = (r, State h (l ++ t))) /\ Forall Q t.

(** A computation that runs alike in the stores [h] and [h']. *)
Definition alike (h h' : gmap loc (gmap string value)) {A} (m : M A) : Prop :=
  forall l, exists r t,
    m (State h l) = (r, State h (l ++ t)) /\
    m (State h' l) = (r, State h' (l ++ t)).

End Reads.

(** ** The interactive loop and the command line

    [repl] and the [__main__] block read lines, call [SafeEval.eval] on
    text and print.  What they need from the Python runtime beyond [Host] is
    in [Shell]: [str.strip], [str.lower], the parser, and [str] of a value.
    The parser returns a tree or its [SyntaxError] (as [ast.parsed]), or
    raises another exception.  [str] of a value can raise too: CPython
    refuses to write an integer of more than 4300 digits with a
    [ValueError]; [print(v)] and [f"{k} = {v}"] raise with it, before
    anything is written.  Standard input is a list of events, the end of
    the list being the end of the file; what is written is a list of
    outputs, one per call of [input] (its prompt) or [print] (its text, the
    final newline being understood). *)

Class Shell `{Host} := {
  str_strip : string -> string;
  str_lower : string -> string;
  ast_parse : string -> result ast.parsed;
  str_value : value -> result string
}.

Inductive stdin_event :=
  | Line (text : string)
  | EOFError
  | KeyboardInterrupt.

Inductive output :=
  | Prompt (text : string)
  | Stdout (text : string)
  | Stderr (text : string).

(** How a turn of the loop ends: [continue] (or the end of the body),
    [break], or an exception that nothing catches. *)
Inductive control := Continue | Break | Uncaught (e : exn).

(** The module docstring. *)
Definition HELP_TEXT : string := "
Calculator (safe, single-file)
--------------------------------
A simple calculator that evaluates math expressions safely (no eval).
- Supports: +, -, *, /, //, %, **, parentheses, unary +/-, and comparisons (==, !=, <, <=, >, >=)
- Functions: abs, round, sqrt, sin, cos, tan, log, log10, exp, pow, max, min
- Constants: pi, e, tau
- Variables: You can assign variables: x = 2, y = 3; then use x*y + 5
- Commands:
    :help   -> show help
    :vars   -> list variables
    :clear  -> clear variables
    :quit   -> exit

Run:
    python calculator.py
Examples:
    2 + 3 * 4
    (1 + 2) ** 3 / 7
    sqrt(2) * 10
    x = 5
    y = 3
    x**2 + y**2
".

Definition banner : string := "Safe Calculator â€” type :help for help, :quit to exit.".

Definition farewell_on_eof : string := "
Bye!".

(** [s[1:]] *)
Definition from_1 (s : string) : string :=
  match s with
  | EmptyString => EmptyString
  | String _ rest => rest
  end.

(** The order of [sorted] on the items of a dictionary: keys are distinct, so
    only the keys are compared, as strings, by code point -- which on the
    UTF-8 bytes of a string is the order of the bytes. *)
Definition key_le `{HostTypes} (a b : string * value) : Prop :=
  String.leb a.1 b.1 = true.

#[export] Instance key_le_dec `{HostTypes} (a b : string * value) :
  Decision (key_le a b) := decide (String.leb a.1 b.1 = true).

Section Shell.
Context `{Shell}.

(** [SafeEval.eval] on the text: the parser, then [eval] on what it
    returns; an exception of the parser other than [SyntaxError] is not
    caught. *)
Definition eval_source (self : SafeEval) (expr : string) : M (option value) :=
  match ast_parse expr with
  | Ok tree => eval self tree
  | Raise e => raise e
  end.

(** [d.clear()] on the dictionary at [l] *)
Definition clear (l : loc) : M unit :=
  fun s => (Ok tt, State (<[l := ∅]> (heap s)) (log s)).

(** [sorted(d.items())] *)
Definition sorted_items (d : gmap string value) : list (string * value) :=
  merge_sort key_le (map_to_list d).

(** [for k, v in items: print(f"{k} = {v}")]: the lines written, and the
    exception of the first value that cannot be written, which ends the
    loop. *)
Fixpoint print_items (items : list (string * value)) : list output * result unit :=
  match items with
  | [] => ([], Ok tt)
  | (k, v) :: rest =>
      match str_value v with
      | Ok text =>
          let '(outs, r) := print_items rest in
          (Stdout (k +:+ " = " +:+ text) :: outs, r)
      | Raise e => ([], Raise e)
      end
  end.

(** What [:vars] prints, and the exception it may end with. *)
Definition vars_listing (d : gmap string value) : list output * result unit :=
  match map_to_list d with
  | [] => ([Stdout "(no variables)"], Ok tt)
  | _ :: _ => print_items (sorted_items d)
  end.

(** One turn of the [while True] loop of [repl], on what [input] gives.
    The commands run outside any [try]; the evaluation of a line and the
    [print] of its result are inside one, which catches every
    [Exception]. *)
Definition iteration (evaluator : SafeEval) (ev : stdin_event) (s : state)
    : list output * control * state :=
  match ev with
  | EOFError | KeyboardInterrupt =>
      ([Prompt ">> "; Stdout farewell_on_eof], Break, s)
  | Line raw =>
      let line := str_strip raw in
      if String.eqb line "" then ([Prompt ">> "], Continue, s)
      else if String.prefix ":" line then
        let cmd := str_lower (str_strip (from_1 line)) in
        if String.eqb cmd "help" then
          ([Prompt ">> "; Stdout HELP_TEXT], Continue, s)
        else if String.eqb cmd "quit" then
          ([Prompt ">> "; Stdout "Bye!"], Break, s)
        else if String.eqb cmd "vars" then
          let '(outs, r) := vars_listing (environment evaluator (heap s)) in
          (Prompt ">> " :: outs,
           match r with Ok _ => Continue | Raise e => Uncaught e end, s)
        else if String.eqb cmd "clear" then
          ([Prompt ">> "; Stdout "Variables cleared."], Continue,
           (clear (vars evaluator) s).2)
        else
          ([Prompt ">> "; Stdout "Unknown command. Try :help"], Continue, s)
      else
        match eval_source evaluator line s with
        | (Ok (Some result), s') =>
            match str_value result with
            | Ok text => ([Prompt ">> "; Stdout text], Continue, s')
            | Raise e =>
                ([Prompt ">> "; Stdout ("Error: " +:+ exc_msg e)], Continue, s')
            end
        | (Ok None, s') => ([Prompt ">> "], Continue, s')
        | (Raise e, s') =>
            ([Prompt ">> "; Stdout ("Error: " +:+ exc_msg e)], Continue, s')
        end
  end.

(** The loop, over the events standard input still holds: what is written,
    whether the loop was left by [break] or by an uncaught exception, and
    the state. *)
Fixpoint repl_loop (evaluator : SafeEval) (stdin : list stdin_event) (s : state)
    : list output * result unit * state :=
  match stdin with
  | [] =>
      let '(out, _, s') := iteration evaluator EOFError s in (out, Ok tt, s')
  | ev :: rest =>
      let '(out, c, s') := iteration evaluator ev s in
      match c with
      | Break => (out, Ok tt, s')
      | Uncaught e => (out, Raise e, s')
      | Continue =>
          let '(outs, r, s'') := repl_loop evaluator rest s' in
          (out ++ outs, r, s'')
      end
  end.

(** [repl()]: what it writes, and whether it returns or raises. *)
Definition repl (stdin : list stdin_event) (s : state)
    : list output * result unit * state :=
  match __init__ None s with
  | (Ok evaluator, s0) =>
      let '(outs, r, s') := repl_loop evaluator stdin s0 in
      (Stdout banner :: outs, r, s')
  | (Raise e, s0) => ([], Raise e, s0)
  end.

(** The [__main__] block, on [sys.argv]: what is written, and the exit
    status or the exception that nothing catches.  The [print] of the
    value is inside the [try]. *)
Definition main (argv : list string) (stdin : list stdin_event) (s : state)
    : list output * result Z * state :=
  match argv with
  | _ :: (_ :: _) as args =>
      let expr := String.concat " " args in
      match (let* evaluator := __init__ None in eval_source evaluator expr) s with
      | (Ok (Some value), s') =>
          match str_value value with
          | Ok text => ([Stdout text], Ok 0%Z, s')
          | Raise exc => ([Stderr ("Error: " +:+ exc_msg exc)], Ok 1%Z, s')
          end
      | (Ok None, s') => ([], Ok 0%Z, s')
      | (Raise exc, s') => ([Stderr ("Error: " +:+ exc_msg exc)], Ok 1%Z, s')
      end
  | _ =>
      let '(outs, r, s') := repl stdin s in
      (outs, match r with Ok _ => Ok 0%Z | Raise e => Raise e end, s')
  end.

(** The command a line gives, when it is one: the line begins, once
    stripped, with a colon. *)
Definition command (raw : string) : option string :=
  let line := str_strip raw in
  if String.eqb line "" then None
  else if String.prefix ":" line then Some (str_lower (str_strip (from_1 line)))
  else None.

Definition blank (raw : string) : bool := String.eqb (str_strip raw) "".

(** An event at which the loop ends. *)
Definition ends_session (ev : stdin_event) : bool :=
  match ev with
  | EOFError | KeyboardInterrupt => true
  | Line raw =>
      match command raw with
      | Some cmd => String.eqb cmd "quit"
      | None => false
      end
  end.

Definition is_prompt (o : output) : bool :=
  match o with
  | Prompt _ => true
  | _ => false
  end.

(** How many times [input] was called. *)
Definition prompts (outs : list output) : nat :=
  length (List.filter is_prompt outs).

(** An event that makes the loop evaluate nothing: a blank line, a command,
    the end of the input. *)
Definition silent (ev : stdin_event) : bool :=
  match ev with
  | Line raw =>
      blank raw || match command raw with Some _ => true | None => false end
  | EOFError | KeyboardInterrupt => true
  end.

End Shell.

(** ** A shell for closed examples

    [exact_shell] completes [exact_host]: it strips ASCII white space,
    lowers ASCII letters, writes integers in decimal -- up to 4300 digits,
    as CPython does -- and booleans as [True] and [False] (a rational is
    written as a fraction, which Python would not do), and its parser
    knows the texts of the examples and nothing else -- every other text
    is a syntax error to it. *)

Module exact_shell.
Import exact.

Definition is_space (c : Ascii.ascii) : bool :=
  match Ascii.nat_of_ascii c with
  | 9 | 10 | 11 | 12 | 13 | 32 => true
  | _ => false
  end.

Fixpoint lstrip (l : list Ascii.ascii) : list Ascii.ascii :=
  match l with
  | c :: l' => if is_space c then lstrip l' else l
  | [] => []
  end.

Definition strip (s : string) : string :=
  String.string_of_list_ascii
    (rev (lstrip (rev (lstrip (String.list_ascii_of_string s))))).

Definition lower_char (c : Ascii.ascii) : Ascii.ascii :=
  let n := Ascii.nat_of_ascii c in
  if (65 <=? n)%nat && (n <=? 90)%nat then Ascii.ascii_of_nat (n + 32) else c.

Definition lower (s : string) : string :=
  String.string_of_list_ascii (map lower_char (String.list_ascii_of_string s)).

(** [2 ** 14285], an integer of 4301 digits *)
Definition two_to_14285 : ast.expr :=
  ast.BinOp (examples.int 2) ast.Pow (examples.int 14285).

Definition parse (text : string) : result ast.parsed :=
  if String.eqb text "x = 5" then Ok examples.x_is_5
  else if String.eqb text "x * 2" then Ok examples.x_times_2
  else if String.eqb text "x = 1; x + 1" then Ok examples.x_is_1_then_x_plus_1
  else if String.eqb text "x = 1; y = zzz; z = 3"
       then Ok examples.x_is_1_then_unknown_then_z
  else if String.eqb text "zzz" then Ok (ast.Module_ [ast.Expr (ast.Name "zzz")])
  else if String.eqb text "max(1, 5)" then Ok (ast.Module_ [ast.Expr examples.max_call])
  else if String.eqb text "2 ** 14285" then Ok (ast.Module_ [ast.Expr two_to_14285])
  else if String.eqb text "x = 2 ** 14285"
       then Ok (ast.Module_ [ast.Assign [ast.Name "x"] two_to_14285])
  else Ok (ast.SyntaxError "invalid syntax").

Definition too_many_digits : exn :=
  Exc ValueError "Exceeds the limit (4300 digits) for integer string conversion; use sys.set_int_max_str_digits() to increase the limit".

(** An integer of more than 4300 digits, that is, one not below
    [10 ** 4300], a number of 14285 bits: the length in bits decides except
    for the numbers of that very length. *)
Definition over_4300_digits (n : Z) : bool :=
  let bits := Z.log2 (Z.abs n) in
  if (bits <? 14284)%Z then false
  else if (14284 <? bits)%Z then true
  else (10 ^ 4300 <=? Z.abs n)%Z.

Fixpoint str (v : value) : result string :=
  match v with
  | VInt n => if over_4300_digits n then Raise too_many_digits else Ok (pretty n)
  | VBool b => Ok (if b then "True" else "False")
  | VFloat x => Ok (pretty (Qnum x) +:+ "/" +:+ pretty (Z.pos (Qden x)))
  | VComplex c => match c with end
  | VTuple elts =>
      match elts with
      | [] => Ok "()"
      | [v] => result_map (fun t => "(" +:+ t +:+ ",)") (str v)
      | v :: vs =>
          result_bind (str v) (fun t =>
          result_map (fun r => "(" +:+ t +:+ r)
            ((fix rest (l : list value) : result string :=
                match l with
                | [] => Ok ")"
                | w :: l' =>
                    result_bind (str w) (fun tw =>
                    result_map (fun r => ", " +:+ tw +:+ r) (rest l'))
                end) vs))
      end
  end.

#[export] Instance exact_shell : Shell := {|
  str_strip := strip;
  str_lower := lower;
  ast_parse := parse;
  str_value := str
|}.

End exact_shell.

(** ** Evaluation leaves the store alone *)

Section Framing.
Context `{Host}.

Lemma framed_ret {A} (a : A) : framed (ret a).
Proof. intros h. exists (Ok a), []. intros l. unfold ret. by rewrite app_nil_r. Qed.

Lemma framed_raise {A} (e : exn) : framed (raise (A := A) e).
Proof. intros h. exists (Raise e), []. intros l. unfold raise. by rewrite app_nil_r. Qed.

Lemma framed_lift {A} (r : result A) : framed (lift r).
Proof. intros h. exists r, []. intros l. unfold lift. by rewrite app_nil_r. Qed.

Lemma framed_tick (ev : event) : framed (tick ev).
Proof. intros h. by exists (Ok tt), [ev]. Qed.

Lemma framed_load (l0 : loc) : framed (load l0).
Proof.
  intros h. exists (Ok (h !!! l0)), []. intros l. unfold load. simpl.
  by rewrite app_nil_r.
Qed.

Lemma framed_bind {A B} (m : M A) (k : A -> M B) :
  framed m -> (forall a, framed (k a)) -> framed (bind m k).
Proof.
  intros Hm Hk h. destruct (Hm h) as (r & t & Hr). destruct r as [a|e].
  - destruct (Hk a h) as (r' & t' & Hr'). exists r', (t ++ t'). intros l.
    unfold bind. rewrite Hr, Hr'. by rewrite app_assoc.
  - exists (Raise e), t. intros l. unfold bind. by rewrite Hr.
Qed.

Create HintDb framed.
#[local] Hint Resolve framed_ret framed_raise framed_lift framed_tick
  framed_load : framed.

Ltac framed_step :=
  repeat first
    [ apply framed_bind; [ | intros ? ]
    | progress eauto with framed
    | match goal with |- framed (match ?x with _ => _ end) => destruct x end
    | match goal with |- framed (if ?x then _ else _) => destruct x end ].

Lemma framed_each (visit : ast.expr -> M value) (l : list ast.expr) :
  Forall (fun a => framed (visit a)) l -> framed (each visit l).
Proof. induction 1; simpl; framed_step. Qed.

Lemma framed_chain (visit : ast.expr -> M value) (comps : list ast.expr) :
  Forall (fun a => framed (visit a)) comps ->
  forall ops cur, framed (chain visit comps ops cur).
Proof.
  induction 1 as [|c comps Hc _ IH]; intros ops cur.
  - destruct ops; simpl; framed_step.
  - destruct ops as [|o ops]; simpl; framed_step.
Qed.

Lemma framed_all_truthy (visit : ast.expr -> M value) (l : list ast.expr) :
  Forall (fun a => framed (visit a)) l -> framed (all_truthy visit l).
Proof. induction 1; simpl; framed_step. Qed.

Lemma framed_any_truthy (visit : ast.expr -> M value) (l : list ast.expr) :
  Forall (fun a => framed (visit a)) l -> framed (any_truthy visit l).
Proof. induction 1; simpl; framed_step. Qed.

#[local] Hint Resolve framed_each framed_chain framed_all_truthy
  framed_any_truthy : framed.

Lemma _eval_expr_framed (self : SafeEval) (node : ast.expr) :
  framed (_eval_expr self node).
Proof.
  induction node using ast.expr_ind; simpl; framed_step.
  all: repeat match goal with
         | HF : Forall _ (_ :: _) |- _ => inversion_clear HF
         end; framed_step.
Qed.

(** Running [_eval_expr] from any state: the store is the one it started
    from, and the log has grown by the observed events. *)
Lemma _eval_expr_run (self : SafeEval) (node : ast.expr) h l :
  _eval_expr self node (State h l) =
    ((observe self node h).1, State h (l ++ (observe self node h).2)).
Proof.
  destruct (_eval_expr_framed self node h) as (r & t & Hr).
  unfold observe. by rewrite (Hr []), (Hr l).
Qed.

End Framing.

(** ** The rules of [_eval_expr], one node kind at a time *)

Section Rules.
Context `{Host}.
Implicit Types (self : SafeEval) (h : gmap loc (gmap string value)).

Ltac run :=
  repeat first
    [ progress (unfold bind, tick, ret, raise, lift, load; simpl)
    | rewrite _eval_expr_run
    | rewrite app_nil_l ].

Lemma each_run self es h l :
  each (_eval_expr self) es (State h l) =
    ((left_to_right self h es).1, State h (l ++ (left_to_right self h es).2)).
Proof.
  revert l. induction es as [|e es IH]; intros l; simpl.
  - unfold ret. by rewrite app_nil_r.
  - unfold bind at 1. rewrite _eval_expr_run.
    destruct (observe self e h) as [[v|x] t]; simpl; [|done].
    unfold bind at 1. rewrite IH.
    destruct (left_to_right self h es) as [[vs|x] ts]; simpl;
      unfold ret; by rewrite app_assoc.
Qed.

Lemma observe_Constant self c h :
  observe self (ast.Constant c) h =
    (match literal c with
     | Some v => Ok v
     | None => Raise (Exc ValueError "Only numeric and boolean constants are allowed.")
     end, [Enter (ast.Constant c)]).
Proof. unfold observe. by destruct c. Qed.

Lemma observe_Name self id h :
  observe self (ast.Name id) h =
    (match environment self h !! id with
     | Some v => Ok v
     | None =>
         match _ALLOWED_CONSTS id with
         | Some v => Ok v
         | None => Raise (Exc ValueError ("Unknown variable or constant: " +:+ id))
         end
     end, [Enter (ast.Name id)]).
Proof.
  unfold observe, environment. simpl. run.
  destruct ((h !!! vars self) !! id); [done|]. by destruct (_ALLOWED_CONSTS id).
Qed.

Lemma observe_BinOp self l o r h a ta b tb :
  observe self l h = (Ok a, ta) ->
  observe self r h = (Ok b, tb) ->
  observe self (ast.BinOp l o r) h =
    (match _BIN_OPS o with
     | Some f => f a b
     | None => Raise (Exc ValueError ("Operator not allowed: " +:+ ast.operator_name o))
     end, Enter (ast.BinOp l o r) :: ta ++ tb).
Proof.
  intros Hl Hr. unfold observe. simpl. run. rewrite Hl. run. rewrite Hr. run.
  by destruct (_BIN_OPS o); run.
Qed.

End Rules.

(** ** Binary operators *)

Section BinaryOperators.
Context `{Host}.
Implicit Types (self : SafeEval) (h : gmap loc (gmap string value)).

Lemma zero_divisor_raises (slot : number_slot) (a b : value) :
  slot = nb_true_divide \/ slot = nb_floor_divide \/ slot = nb_remainder ->
  is_number a = true -> is_number b = true -> is_zero b = true ->
  exists e, op.binary slot a b = Raise e /\ is_ArithmeticError (exc_type e) = true.
Proof.
  intros Hslot Ha Hb Hz. unfold op.binary.
  assert (Hconv : forall n, (exists x, op.int_to_float n = Ok x) \/
            (exists e, op.int_to_float n = Raise e /\
                       is_ArithmeticError (exc_type e) = true)).
  { intros n. unfold op.int_to_float. destruct (float_of_int n); eauto. }
  assert (Hzero : forall x, op.int_to_float 0 = Ok x -> float_is_zero x = true).
  { intros x. unfold op.int_to_float.
    destruct (float_of_int 0) as [y|] eqn:E; [|done].
    intros [= <-]. by apply float_of_int_zero. }
  assert (Hfloat : forall x y, float_is_zero y = true ->
            exists e, op.float_binary slot x y = Raise e /\
                      is_ArithmeticError (exc_type e) = true).
  { intros x y Hy. unfold op.float_binary.
    destruct Hslot as [->|[->| ->]]; rewrite Hy; eauto. }
  assert (Hint : forall x, exists e, op.int_binary slot x 0 = Raise e /\
                      is_ArithmeticError (exc_type e) = true).
  { intros x. destruct Hslot as [->|[->| ->]]; simpl; eauto. }
  destruct a as [n|p|x| |], b as [m|q|y| |]; try done; simpl in *.
  - apply Z.eqb_eq in Hz as ->. apply Hint.
  - destruct q; [done|]. apply Hint.
  - destruct (Hconv n) as [[x ->]|(e & -> & He)]; simpl; eauto.
  - apply Z.eqb_eq in Hz as ->. apply Hint.
  - destruct q; [done|]. apply Hint.
  - destruct (Hconv (Z.b2z p)) as [[x ->]|(e & -> & He)]; simpl; eauto.
  - apply Z.eqb_eq in Hz as ->.
    destruct (Hconv 0%Z) as [[y Hy]|(e & -> & He)]; simpl; eauto.
    rewrite Hy. simpl. eauto.
  - destruct q; [done|]. simpl.
    destruct (Hconv 0%Z) as [[y Hy]|(e & -> & He)]; simpl; eauto.
    rewrite Hy. simpl. eauto.
  - eauto.
Qed.

(** C2: for operands denoting the numeric values [a] and [b], each of
    [+ - * / // % **] returns the result of the corresponding native
    operation on [a] and [b] (on integers: sum, difference, product, floor
    quotient, remainder with the sign of the divisor, power); and for
    [/], [//] and [%] a zero [b] yields an exception of class
    [ArithmeticError], returned as a failure of the evaluation. *)
Theorem binop_native_result self h ea eb a ta b tb :
  observe self ea h = (Ok a, ta) ->
  observe self eb h = (Ok b, tb) ->
  is_number a = true -> is_number b = true ->
  let result o := (observe self (ast.BinOp ea o eb) h).1 in
  (result ast.Add = op.add a b /\
   result ast.Sub = op.sub a b /\
   result ast.Mult = op.mul a b /\
   result ast.Div = op.truediv a b /\
   result ast.FloorDiv = op.floordiv a b /\
   result ast.Mod = op.mod_ a b /\
   result ast.Pow = op.pow a b) /\
  (forall x y, a = VInt x -> b = VInt y ->
     result ast.Add = Ok (VInt (x + y)) /\
     result ast.Sub = Ok (VInt (x - y)) /\
     result ast.Mult = Ok (VInt (x * y)) /\
     (y <> 0%Z -> result ast.FloorDiv = Ok (VInt (x / y))) /\
     (y <> 0%Z -> result ast.Mod = Ok (VInt (x mod y))) /\
     (0 <= y -> result ast.Pow = Ok (VInt (x ^ y)))%Z) /\
  (is_zero b = true ->
   forall o, o = ast.Div \/ o = ast.FloorDiv \/ o = ast.Mod ->
     exists e, result o = Raise e /\ is_ArithmeticError (exc_type e) = true).
Proof.
  intros Ha Hb Na Nb result.
  assert (Hres : forall o, result o =
            match _BIN_OPS o with
            | Some f => f a b
            | None => Raise (Exc ValueError ("Operator not allowed: " +:+ ast.operator_name o))
            end).
  { intros o. unfold result. by rewrite (observe_BinOp _ _ _ _ _ _ _ _ _ Ha Hb). }
  split; [by rewrite !Hres|]. split.
  - intros x y -> ->. rewrite !Hres. simpl.
    unfold op.add, op.sub, op.mul, op.floordiv, op.mod_, op.pow, op.binary. simpl.
    repeat split; try done.
    + intros Hy. by apply Z.eqb_neq in Hy as ->.
    + intros Hy. by apply Z.eqb_neq in Hy as ->.
    + intros Hy. by apply Z.ltb_ge in Hy as ->.
  - intros Hz o Ho. rewrite Hres.
    destruct Ho as [->|[->| ->]]; simpl; apply zero_divisor_raises; auto.
Qed.

End BinaryOperators.


(** ** Names and literals *)

Section Leaves.
Context `{Host}.
Implicit Types (self : SafeEval) (h : gmap loc (gmap string value)).

(** C10: evaluating an expression, whether it succeeds or fails, leaves the
    whole store, and so the environment, as it was; and a program without an
    assignment statement leaves it as it was too. *)
Theorem expression_evaluation_preserves_environment self :
  (forall node s, heap (_eval_expr self node s).2 = heap s) /\
  (forall tree s, no_assignment tree = true -> heap (eval self tree s).2 = heap s).
Proof.
  assert (Hexpr : forall node s, heap (_eval_expr self node s).2 = heap s).
  { intros node [h l]. by rewrite _eval_expr_run. }
  split; [done|].
  assert (Hbody : forall body last s,
            forallb (fun st => negb (is_assign st)) body = true ->
            heap (eval_body self body last s).2 = heap s).
  { induction body as [|st body IH]; intros last s Hb; [done|].
    simpl in Hb. apply andb_true_iff in Hb as [Hst Hb].
    destruct st as [e| |]; [|done|done]. simpl. unfold bind.
    pose proof (Hexpr e s) as He.
    destruct (_eval_expr self e s) as [[v|x] s']; simpl in *; [|done].
    by rewrite IH. }
  intros [msg|body] s Hb; [done|].
  destruct body as [|[e| |] [|st body]]; try done.
  - simpl. unfold bind. pose proof (Hexpr e s) as He.
    by destruct (_eval_expr self e s) as [[v|x] s'].
  - by apply Hbody.
Qed.

(** C5: a name is looked up in the environment first, then among the
    constants [pi], [e] and [tau], and is otherwise rejected with an error
    that carries it; so after [pi = 1] the name [pi] evaluates to [1]. *)
Theorem name_lookup_order self h n :
  let result := (observe self (ast.Name n) h).1 in
  (forall v, environment self h !! n = Some v -> result = Ok v) /\
  (environment self h !! n = None ->
     (n = "pi" -> result = Ok (VFloat math_pi)) /\
     (n = "e" -> result = Ok (VFloat math_e)) /\
     (n = "tau" -> result = Ok (VFloat math_tau)) /\
     (n ∉ ["pi"; "e"; "tau"] ->
        result = Raise (Exc ValueError ("Unknown variable or constant: " +:+ n)))) /\
  (forall s,
     let s1 := (eval self (ast.Module_
                 [ast.Assign [ast.Name "pi"] (ast.Constant (ast.CInt 1))]) s).2 in
     (eval self (ast.Module_ [ast.Expr (ast.Name "pi")]) s1).1 = Ok (Some (VInt 1))).
Proof.
  intros result. unfold result. rewrite observe_Name. simpl.
  split; [by intros v ->|]. split.
  - intros ->. repeat split; try by intros ->.
    intros Hn. unfold _ALLOWED_CONSTS.
    destruct (String.eqb_spec n "pi") as [->|_]; [set_solver|].
    destruct (String.eqb_spec n "e") as [->|_]; [set_solver|].
    destruct (String.eqb_spec n "tau") as [->|_]; [set_solver|]. done.
  - intros [h0 l0]. simpl. unfold bind, tick, ret, setitem, load. simpl.
    by rewrite lookup_total_insert_eq, lookup_insert_eq.
Qed.

(** C8, as amended: a literal node returns its number or boolean unchanged;
    any other literal (a string, for instance) is rejected by the literal
    rule of [_eval_expr], when it is evaluated, with the error
    "Only numeric and boolean constants are allowed." -- a tree that holds
    such a literal as its statement is not refused before evaluation. *)
Theorem literal_rule self c s :
  let here := State (heap s) (log s ++ [Enter (ast.Constant c)]) in
  let refused :=
    Exc ValueError "Only numeric and boolean constants are allowed." in
  (forall v, literal c = Some v ->
     _eval_expr self (ast.Constant c) s = (Ok v, here)) /\
  (literal c = None ->
     _eval_expr self (ast.Constant c) s = (Raise refused, here) /\
     eval self (ast.Module_ [ast.Expr (ast.Constant c)]) s = (Raise refused, here)).
Proof.
  intros here refused. subst here refused. destruct s as [h l]. cbn [heap log].
  split.
  - intros v Hv. rewrite _eval_expr_run, observe_Constant. by rewrite Hv.
  - intros Hc. unfold eval, bind.
    rewrite _eval_expr_run, observe_Constant. by rewrite Hc.
Qed.

End Leaves.

(** ** Statement sequences *)

Section Statements.
Context `{Host}.
Implicit Types (self : SafeEval) (s : state).

(** The two paths of [eval] agree: a single expression statement gives what
    the loop gives. *)
Lemma eval_as_loop self body s :
  eval self (ast.Module_ body) s = eval_body self body None s.
Proof.
  by destruct body as [|[e| |] [|st body]].
Qed.

Lemma eval_body_app self pre post last s :
  eval_body self (pre ++ post) last s =
    match eval_body self pre last s with
    | (Ok last', s1) => eval_body self post last' s1
    | (Raise e, s1) => (Raise e, s1)
    end.
Proof.
  revert last s. induction pre as [|st pre IH]; intros last s; [done|].
  destruct st as [e|targets e|kind]; simpl.
  - unfold bind. destruct (_eval_expr self e s) as [[v|x] s']; [apply IH|done].
  - destruct targets as [|[ | x | | | | | | | | ] [|]]; try done.
    unfold bind. destruct (_eval_expr self e s) as [[v|ex] s']; [|done].
    simpl. apply IH.
  - done.
Qed.

Lemma eval_body_Expr self e last s :
  eval_body self [ast.Expr e] last s =
    match _eval_expr self e s with
    | (Ok v, s') => (Ok (Some v), s')
    | (Raise x, s') => (Raise x, s')
    end.
Proof. simpl. unfold bind. by destruct (_eval_expr self e s) as [[v|x] s']. Qed.

Lemma eval_body_Assign self x e last s :
  eval_body self [ast.Assign [ast.Name x] e] last s =
    match _eval_expr self e s with
    | (Ok v, s') => (Ok (Some v), assigned self x v s')
    | (Raise ex, s') => (Raise ex, s')
    end.
Proof. simpl. unfold bind. by destruct (_eval_expr self e s) as [[v|ex] s']. Qed.

(** A statement that fails leaves the store as it found it. *)
Lemma failed_statement_heap self st last s e s' :
  eval_body self [st] last s = (Raise e, s') -> heap s' = heap s.
Proof.
  destruct st as [e0|targets e0|kind].
  - rewrite eval_body_Expr. destruct s as [h l]. rewrite _eval_expr_run.
    destruct (observe self e0 h).1; by intros [= _ <-].
  - destruct targets as [|[ | x | | | | | | | | ] [|]];
      try (by intros [= _ <-]).
    rewrite eval_body_Assign. destruct s as [h l]. rewrite _eval_expr_run.
    destruct (observe self e0 h).1; [done|]. by intros [= _ <-].
  - by intros [= _ <-].
Qed.

(** [eval] writes to no dictionary other than [self.vars]. *)
Lemma eval_body_other_dicts self body last s l :
  l <> vars self -> heap (eval_body self body last s).2 !! l = heap s !! l.
Proof.
  intros Hl. revert last s.
  induction body as [|st body IH]; intros last s; [done|].
  destruct st as [e|targets e|kind]; simpl; [| |done].
  - unfold bind. destruct s as [h l0]. rewrite _eval_expr_run.
    destruct (observe self e h).1; [|done]. by rewrite IH.
  - destruct targets as [|[ | x | | | | | | | | ] [|]]; try done.
    unfold bind. destruct s as [h l0]. rewrite _eval_expr_run.
    destruct (observe self e h).1; [|done]. simpl.
    rewrite IH. simpl. by rewrite lookup_insert_ne.
Qed.

(** The log is a ghost: neither the result of [eval] nor the store it
    leaves depends on it. *)
Lemma eval_log_irrelevant self tree h l l' :
  (eval self tree (State h l)).1 = (eval self tree (State h l')).1 /\
  heap (eval self tree (State h l)).2 = heap (eval self tree (State h l')).2.
Proof.
  destruct tree as [msg|body]; [done|]. rewrite !eval_as_loop.
  generalize (@None value) as last. revert h l l'.
  induction body as [|st body IH]; intros h l l' last; [done|].
  destruct st as [e|targets e|kind]; simpl; [| |done].
  - unfold bind. rewrite !_eval_expr_run.
    destruct (observe self e h).1; [apply IH|done].
  - destruct targets as [|[ | x | | | | | | | | ] [|]]; try done.
    unfold bind. rewrite !_eval_expr_run.
    destruct (observe self e h).1; [|done]. simpl. apply IH.
Qed.

(** C6: the result of a statement sequence is the value of its last
    statement; an assignment has the assigned value as its value and stores
    it in the environment, where later statements and later calls of [eval]
    on the same evaluator find it.  [x = 1; x + 1] gives [2] and leaves [x]
    bound to [1]; [x = 5] followed by a call on [x * 2] gives [10]. *)
Theorem sequence_result self s :
  (forall body last s1,
     eval_body self body None s = (Ok last, s1) ->
     (forall e,
        eval self (ast.Module_ (body ++ [ast.Expr e])) s =
          match _eval_expr self e s1 with
          | (Ok v, s2) => (Ok (Some v), s2)
          | (Raise x, s2) => (Raise x, s2)
          end) /\
     (forall x e,
        eval self (ast.Module_ (body ++ [ast.Assign [ast.Name x] e])) s =
          match _eval_expr self e s1 with
          | (Ok v, s2) => (Ok (Some v), assigned self x v s2)
          | (Raise ex, s2) => (Raise ex, s2)
          end)) /\
  (let '(r, s') := eval self examples.x_is_1_then_x_plus_1 s in
   r = Ok (Some (VInt 2)) /\ environment self (heap s') !! "x" = Some (VInt 1)) /\
  (let s1 := (eval self examples.x_is_5 s).2 in
   (eval self examples.x_times_2 s1).1 = Ok (Some (VInt 10))).
Proof.
  split; [|split].
  - intros body last s1 Hbody. split.
    + intros e. by rewrite eval_as_loop, eval_body_app, Hbody, eval_body_Expr.
    + intros x e. by rewrite eval_as_loop, eval_body_app, Hbody, eval_body_Assign.
  - destruct s as [h l]. simpl.
    unfold bind, tick, ret, lift, setitem, load, environment. simpl.
    rewrite !lookup_total_insert_eq, !lookup_insert_eq.
    unfold op.add, op.binary. simpl.
    by rewrite !lookup_total_insert_eq, !lookup_insert_eq.
  - destruct s as [h l]. simpl.
    unfold bind, tick, ret, lift, setitem, load, environment. simpl.
    by rewrite !lookup_total_insert_eq, !lookup_insert_eq.
Qed.

(** C7: a failure of [eval] is an exception value returned together with
    the state reached.  When a statement of a sequence fails after the
    statements before it succeeded, the whole call fails with that
    statement's exception, the store is the one the earlier statements
    left -- their assignments stay applied -- and the failing statement has
    written nothing. *)
Theorem failure_keeps_earlier_assignments self pre st post s last s1 e s2 :
  eval_body self pre None s = (Ok last, s1) ->
  eval_body self [st] last s1 = (Raise e, s2) ->
  eval self (ast.Module_ (pre ++ st :: post)) s = (Raise e, s2) /\
  heap s2 = heap s1.
Proof.
  intros Hpre Hst. split; [|by eapply failed_statement_heap].
  rewrite eval_as_loop, eval_body_app, Hpre.
  change (st :: post) with ([st] ++ post). by rewrite eval_body_app, Hst.
Qed.

End Statements.

(** ** Loops over operands *)

Section Operands.
Context `{Host}.
Implicit Types (self : SafeEval) (h : gmap loc (gmap string value)).

Lemma left_to_right_cons self h e es vs ts :
  left_to_right self h (e :: es) = (Ok vs, ts) ->
  exists v t vs' ts',
    observe self e h = (Ok v, t) /\ left_to_right self h es = (Ok vs', ts') /\
    vs = v :: vs' /\ ts = t ++ ts'.
Proof.
  simpl. destruct (observe self e h) as [[v|x] t]; [|done].
  destruct (left_to_right self h es) as [[vs'|x] ts']; [|done].
  intros [= <- <-]. by exists v, t, vs', ts'.
Qed.

Ltac step :=
  simpl; unfold bind at 1; rewrite _eval_expr_run;
  repeat match goal with
    | E : observe _ _ _ = _ |- _ => rewrite E; clear E
    end;
  simpl.

Lemma all_truthy_true self h values vs ts l :
  left_to_right self h values = (Ok vs, ts) ->
  forallb op.truth vs = true ->
  all_truthy (_eval_expr self) values (State h l) =
    (Ok (VBool true), State h (l ++ ts)).
Proof.
  revert vs ts l. induction values as [|e es IH]; intros vs ts l.
  - intros [= <- <-] _. simpl. unfold ret. by rewrite app_nil_r.
  - intros (v & t & vs' & ts' & Hv & Hes & -> & ->)%left_to_right_cons Htrue.
    simpl in Htrue. apply andb_true_iff in Htrue as [Hx Htrue].
    step. rewrite Hx. simpl. rewrite (IH _ _ _ Hes Htrue). by rewrite app_assoc.
Qed.

Lemma all_truthy_false self h pre v post vs ts x t l :
  left_to_right self h pre = (Ok vs, ts) ->
  forallb op.truth vs = true ->
  observe self v h = (Ok x, t) ->
  op.truth x = false ->
  all_truthy (_eval_expr self) (pre ++ v :: post) (State h l) =
    (Ok (VBool false), State h (l ++ ts ++ t)).
Proof.
  intros Hpre Htrue Hv Hx. revert vs ts l Hpre Htrue.
  induction pre as [|e es IH]; intros vs ts l.
  - intros [= <- <-] _. step. by rewrite Hx.
  - intros (v' & t' & vs' & ts' & Hv' & Hes & -> & ->)%left_to_right_cons Htrue.
    simpl in Htrue. apply andb_true_iff in Htrue as [Hx' Htrue].
    step. rewrite Hx'. simpl. rewrite (IH _ _ _ Hes Htrue).
    by rewrite <- !app_assoc.
Qed.

Lemma any_truthy_false self h values vs ts l :
  left_to_right self h values = (Ok vs, ts) ->
  forallb (fun v => negb (op.truth v)) vs = true ->
  any_truthy (_eval_expr self) values (State h l) =
    (Ok (VBool false), State h (l ++ ts)).
Proof.
  revert vs ts l. induction values as [|e es IH]; intros vs ts l.
  - intros [= <- <-] _. simpl. unfold ret. by rewrite app_nil_r.
  - intros (v & t & vs' & ts' & Hv & Hes & -> & ->)%left_to_right_cons Hfalse.
    simpl in Hfalse. apply andb_true_iff in Hfalse as [Hx Hfalse].
    apply negb_true_iff in Hx.
    step. rewrite Hx. rewrite (IH _ _ _ Hes Hfalse). by rewrite app_assoc.
Qed.

Lemma any_truthy_true self h pre v post vs ts x t l :
  left_to_right self h pre = (Ok vs, ts) ->
  forallb (fun v => negb (op.truth v)) vs = true ->
  observe self v h = (Ok x, t) ->
  op.truth x = true ->
  any_truthy (_eval_expr self) (pre ++ v :: post) (State h l) =
    (Ok (VBool true), State h (l ++ ts ++ t)).
Proof.
  intros Hpre Hfalse Hv Hx. revert vs ts l Hpre Hfalse.
  induction pre as [|e es IH]; intros vs ts l.
  - intros [= <- <-] _. step. by rewrite Hx.
  - intros (v' & t' & vs' & ts' & Hv' & Hes & -> & ->)%left_to_right_cons Hfalse.
    simpl in Hfalse. apply andb_true_iff in Hfalse as [Hx' Hfalse].
    apply negb_true_iff in Hx'.
    step. rewrite Hx'. rewrite (IH _ _ _ Hes Hfalse).
    by rewrite <- !app_assoc.
Qed.

Lemma truthy_loops_bool self (o : ast.boolop) values s r s' :
  match o with
  | ast.And => all_truthy (_eval_expr self) values s
  | ast.Or => any_truthy (_eval_expr self) values s
  end = (Ok r, s') ->
  r = VBool true \/ r = VBool false.
Proof.
  revert s. induction values as [|e es IH]; intros s.
  - destruct o; intros [= <- _]; auto.
  - destruct o; simpl; unfold bind at 1;
      destruct (_eval_expr self e s) as [[v|x] s1]; try done;
      destruct (op.truth v); simpl; try (intros [= <- _]; by auto);
      apply (IH s1).
Qed.

(** C4: [and] evaluates its operands left to right and is [False] at the
    first falsy operand, the operands after it not being evaluated, and
    [True] when every operand is truthy; [or] is [True] at the first truthy
    operand and [False] when none is; the result is always one of the two
    booleans, never the operand that decided it. *)
Theorem boolop_normalised self h :
  (forall values vs ts,
     left_to_right self h values = (Ok vs, ts) ->
     forallb op.truth vs = true ->
     observe self (ast.BoolOp ast.And values) h =
       (Ok (VBool true), Enter (ast.BoolOp ast.And values) :: ts)) /\
  (forall pre v post vs ts x t,
     left_to_right self h pre = (Ok vs, ts) ->
     forallb op.truth vs = true ->
     observe self v h = (Ok x, t) ->
     op.truth x = false ->
     observe self (ast.BoolOp ast.And (pre ++ v :: post)) h =
       (Ok (VBool false), Enter (ast.BoolOp ast.And (pre ++ v :: post)) :: ts ++ t)) /\
  (forall values vs ts,
     left_to_right self h values = (Ok vs, ts) ->
     forallb (fun v => negb (op.truth v)) vs = true ->
     observe self (ast.BoolOp ast.Or values) h =
       (Ok (VBool false), Enter (ast.BoolOp ast.Or values) :: ts)) /\
  (forall pre v post vs ts x t,
     left_to_right self h pre = (Ok vs, ts) ->
     forallb (fun v => negb (op.truth v)) vs = true ->
     observe self v h = (Ok x, t) ->
     op.truth x = true ->
     observe self (ast.BoolOp ast.Or (pre ++ v :: post)) h =
       (Ok (VBool true), Enter (ast.BoolOp ast.Or (pre ++ v :: post)) :: ts ++ t)) /\
  (forall o values r t,
     observe self (ast.BoolOp o values) h = (Ok r, t) ->
     r = VBool true \/ r = VBool false).
Proof.
  repeat split.
  - intros values vs ts Hvs Htrue. unfold observe. simpl. unfold bind, tick. simpl.
    by rewrite (all_truthy_true _ _ _ _ _ _ Hvs Htrue).
  - intros pre v post vs ts x t Hvs Htrue Hv Hx.
    unfold observe. simpl. unfold bind, tick. simpl.
    by rewrite (all_truthy_false _ _ _ _ _ _ _ _ _ _ Hvs Htrue Hv Hx).
  - intros values vs ts Hvs Hfalse. unfold observe. simpl. unfold bind, tick. simpl.
    by rewrite (any_truthy_false _ _ _ _ _ _ Hvs Hfalse).
  - intros pre v post vs ts x t Hvs Hfalse Hv Hx.
    unfold observe. simpl. unfold bind, tick. simpl.
    by rewrite (any_truthy_true _ _ _ _ _ _ _ _ _ _ Hvs Hfalse Hv Hx).
  - intros o values r t. unfold observe. simpl. unfold bind, tick. simpl.
    destruct o;
      [destruct (all_truthy _ values _) as [r' s'] eqn:E
      |destruct (any_truthy _ values _) as [r' s'] eqn:E];
      intros [= -> _].
    + by eapply (truthy_loops_bool self ast.And values).
    + by eapply (truthy_loops_bool self ast.Or values).
Qed.

End Operands.

(** ** Comparisons *)

Section Comparisons.
Context `{Host}.
Implicit Types (self : SafeEval) (h : gmap loc (gmap string value)).

Ltac step :=
  simpl; unfold bind at 1; rewrite _eval_expr_run;
  repeat match goal with
    | E : observe _ _ _ = _ |- _ => rewrite E; clear E
    end;
  simpl.

(** A supported comparison returns a boolean. *)
Lemma cmp_result_bool (o : ast.cmpop) f (a b r : value) :
  _CMP_OPS o = Some f -> f a b = Ok r -> r = VBool (op.truth r).
Proof.
  intros Ho. assert (Hf : exists code, f = op.compare code).
  { destruct o; simplify_eq/=; by eexists. }
  destruct Hf as [code ->]. unfold op.compare.
  destruct (as_int a), (as_int b); try (by intros [= <-]);
    destruct (rich_compare code a b); by intros [= <-].
Qed.

(** A single comparison is a chain of one link. *)
Lemma compare_as_chain self l ops comps s :
  _eval_expr self (ast.Compare l ops comps) s =
    (tick (Enter (ast.Compare l ops comps)) ;;
     let* left_val := _eval_expr self l in
     chain (_eval_expr self) comps ops left_val) s.
Proof.
  destruct ops as [|o [|o' ops]], comps as [|c [|c' comps]]; try done.
  simpl. unfold bind, tick, lift, ret, raise.
  destruct (_eval_expr self l _) as [[a|x] s1]; [|done].
  destruct (_eval_expr self c s1) as [[b|x] s2]; [|done].
  destruct (_CMP_OPS o) as [f|] eqn:Ho; [|done].
  destruct (f a b) as [r|x] eqn:Hf; [|done].
  rewrite (cmp_result_bool _ _ _ _ _ Ho Hf). simpl. by destruct (op.truth r).
Qed.

(** The table [_CMP_OPS] gives each operator the native comparison it
    stands for. *)
Lemma link_holds_table (o : ast.cmpop) (a b : value) :
  link_holds o a b =
    match _CMP_OPS o with
    | Some f => match f a b with Ok r => op.truth r | Raise _ => false end
    | None => false
    end.
Proof. by destruct o. Qed.

Lemma link_fails_table (o : ast.cmpop) (a b : value) :
  link_fails o a b =
    match _CMP_OPS o with
    | Some f => match f a b with Ok r => negb (op.truth r) | Raise _ => false end
    | None => false
    end.
Proof. by destruct o. Qed.

Lemma chain_all_hold self h comps ops cur vs ts l :
  length ops = length comps ->
  left_to_right self h comps = (Ok vs, ts) ->
  links_hold cur ops vs = true ->
  chain (_eval_expr self) comps ops cur (State h l) =
    (Ok (VBool true), State h (l ++ ts)).
Proof.
  revert ops cur vs ts l.
  induction comps as [|c comps IH]; intros [|o ops] cur vs ts l Hlen; try done.
  - intros [= <- <-] _. simpl. unfold ret. by rewrite app_nil_r.
  - intros (v & t & vs' & ts' & Hv & Hes & -> & ->)%left_to_right_cons.
    simpl. intros [Hlink Hrest]%andb_true_iff. rewrite link_holds_table in Hlink.
    step. destruct (_CMP_OPS o) as [f|]; [|done].
    unfold bind at 1, lift. destruct (f cur v) as [r|]; [|done].
    rewrite Hlink. simpl. injection Hlen as Hlen.
    rewrite (IH _ _ _ _ _ Hlen Hes Hrest). by rewrite app_assoc.
Qed.

Lemma chain_first_failure self h comps1 c comps2 ops1 o ops2 cur vs ts x t l :
  length ops1 = length comps1 ->
  left_to_right self h comps1 = (Ok vs, ts) ->
  links_hold cur ops1 vs = true ->
  observe self c h = (Ok x, t) ->
  link_fails o (final cur vs) x = true ->
  chain (_eval_expr self) (comps1 ++ c :: comps2) (ops1 ++ o :: ops2) cur (State h l) =
    (Ok (VBool false), State h (l ++ ts ++ t)).
Proof.
  intros Hlen Hes Hhold Hc Hfail. revert ops1 cur vs ts l Hlen Hes Hhold Hfail.
  induction comps1 as [|c1 comps1 IH]; intros [|o1 ops1] cur vs ts l Hlen; try done.
  - intros [= <- <-] _. simpl. rewrite link_fails_table. intros Hfail.
    step. destruct (_CMP_OPS o) as [f|]; [|done].
    unfold bind at 1, lift. destruct (f cur x) as [r|]; [|done].
    by rewrite Hfail.
  - intros (v & t' & vs' & ts' & Hv & Hes & -> & ->)%left_to_right_cons.
    simpl. intros [Hlink Hrest]%andb_true_iff Hfail. rewrite link_holds_table in Hlink.
    step. destruct (_CMP_OPS o1) as [f|]; [|done].
    unfold bind at 1, lift. destruct (f cur v) as [r|]; [|done].
    rewrite Hlink. simpl. injection Hlen as Hlen.
    rewrite (IH _ _ _ _ _ Hlen Hes Hrest Hfail). by rewrite <- !app_assoc.
Qed.

Lemma chain_true_only_if self h comps ops cur l s' :
  length ops = length comps ->
  chain (_eval_expr self) comps ops cur (State h l) = (Ok (VBool true), s') ->
  exists vs ts,
    left_to_right self h comps = (Ok vs, ts) /\ links_hold cur ops vs = true /\
    s' = State h (l ++ ts).
Proof.
  revert ops cur l s'.
  induction comps as [|c comps IH]; intros [|o ops] cur l s' Hlen; try done.
  - intros [= <-]. exists [], []. by rewrite app_nil_r.
  - simpl. unfold bind at 1. rewrite _eval_expr_run.
    destruct (observe self c h) as [[v|x] t] eqn:Hc; simpl; [|done].
    destruct (_CMP_OPS o) as [f|] eqn:Ho; [|done].
    unfold bind at 1, lift. destruct (f cur v) as [r|] eqn:Hf; [|done].
    destruct (op.truth r) eqn:Hr; simpl; [|done].
    injection Hlen as Hlen. intros (vs & ts & Hvs & Hhold & ->)%IH; [|done].
    exists (v :: vs), (t ++ ts). rewrite Hvs, link_holds_table, Ho, Hhold, Hf, Hr.
    by rewrite app_assoc.
Qed.

(** C3: in a comparison [a0 op1 a1 ... opn an] the operands are evaluated
    left to right, each at most once.  When every link holds the result is
    [True], and it is [True] only then; at the first link that fails the
    result is [False], and the operands after that link are not evaluated,
    whatever they would do.  A link [a o b] holds when the comparison that
    [o] denotes is true of [a] and [b]: on integers [==] is equality, [!=]
    its negation, [<], [<=], [>] and [>=] the orders of the integers, and a
    link fails exactly when it does not hold. *)
Theorem chained_comparison self h left ops comps v0 t0 :
  observe self left h = (Ok v0, t0) ->
  length ops = length comps ->
  let node := ast.Compare left ops comps in
  (forall vs ts,
     left_to_right self h comps = (Ok vs, ts) ->
     links_hold v0 ops vs = true ->
     observe self node h = (Ok (VBool true), Enter node :: t0 ++ ts)) /\
  (forall ops1 o ops2 comps1 c comps2 vs ts x t,
     ops = ops1 ++ o :: ops2 ->
     comps = comps1 ++ c :: comps2 ->
     length ops1 = length comps1 ->
     left_to_right self h comps1 = (Ok vs, ts) ->
     links_hold v0 ops1 vs = true ->
     observe self c h = (Ok x, t) ->
     link_fails o (final v0 vs) x = true ->
     observe self node h = (Ok (VBool false), Enter node :: t0 ++ ts ++ t)) /\
  (forall t,
     observe self node h = (Ok (VBool true), t) ->
     exists vs ts,
       left_to_right self h comps = (Ok vs, ts) /\
       links_hold v0 ops vs = true /\
       t = Enter node :: t0 ++ ts) /\
  (forall x y : Z,
     let holds o := link_holds o (VInt x) (VInt y) in
     holds ast.Eq = (x =? y)%Z /\
     holds ast.NotEq = negb (x =? y)%Z /\
     holds ast.Lt = (x <? y)%Z /\
     holds ast.LtE = (x <=? y)%Z /\
     holds ast.Gt = (y <? x)%Z /\
     holds ast.GtE = (y <=? x)%Z /\
     (forall o,
        In o [ast.Eq; ast.NotEq; ast.Lt; ast.LtE; ast.Gt; ast.GtE] ->
        link_fails o (VInt x) (VInt y) = negb (holds o))).
Proof.
  intros Hleft Hlen node.
  assert (Hrun : observe self node h =
            let '(r, s) := chain (_eval_expr self) comps ops v0
                             (State h (Enter node :: t0)) in
            (r, log s)).
  { unfold observe, node. rewrite compare_as_chain.
    unfold bind at 1, tick. simpl. unfold bind at 1.
    rewrite _eval_expr_run, Hleft. done. }
  repeat split.
  - intros vs ts Hvs Hhold. rewrite Hrun.
    by rewrite (chain_all_hold _ _ _ _ _ _ _ _ Hlen Hvs Hhold).
  - intros ops1 o ops2 comps1 c comps2 vs ts x t Hops Hcomps Hlen1 Hvs Hhold Hc Hfail.
    rewrite Hrun, Hops, Hcomps.
    by rewrite (chain_first_failure _ _ _ _ _ _ _ _ _ _ _ _ _ _ Hlen1 Hvs Hhold Hc Hfail).
  - intros t. rewrite Hrun.
    destruct (chain _ comps ops v0 _) as [r s'] eqn:E. intros [= -> <-].
    apply chain_true_only_if in E as (vs & ts & Hvs & Hhold & ->); [|done].
    by exists vs, ts.
  - simpl. apply Z.gtb_ltb.
  - simpl. apply Z.geb_leb.
  - intros o Ho. simpl in Ho.
    destruct Ho as [<-|[<-|[<-|[<-|[<-|[<-|[]]]]]]]; reflexivity.
Qed.

End Comparisons.

(** ** Calls *)

Section Calls.
Context `{Host}.
Implicit Types (self : SafeEval) (h : gmap loc (gmap string value)).

(** C1, as amended: a call whose callee is not a bare name, or whose name is
    not whitelisted, fails with an error that says so (naming the function)
    before anything is evaluated or invoked.  For a whitelisted name the
    arguments are evaluated left to right; keyword arguments then make the
    call fail with a described error and the called function is not
    invoked -- the functions called inside the argument expressions have
    been invoked by then; without keyword arguments the function is invoked
    once, on the argument values. *)
Theorem call_whitelist self h func args keywords :
  let node := ast.Call func args keywords in
  ((forall name, func <> ast.Name name) ->
   observe self node h =
     (Raise (Exc ValueError "Only direct function calls are allowed."),
      [Enter node])) /\
  (forall name, func = ast.Name name -> name ∉ allowed_func_names ->
   observe self node h =
     (Raise (Exc ValueError ("Function not allowed: " +:+ name)), [Enter node])) /\
  (forall name, func = ast.Name name -> name ∈ allowed_func_names ->
   (forall e ts,
      left_to_right self h args = (Raise e, ts) ->
      observe self node h = (Raise e, Enter node :: ts)) /\
   (forall vs ts,
      left_to_right self h args = (Ok vs, ts) ->
      keywords <> [] ->
      observe self node h =
        (Raise (Exc ValueError "Keyword arguments are not allowed."),
         Enter node :: ts)) /\
   (forall vs ts,
      left_to_right self h args = (Ok vs, ts) ->
      keywords = [] ->
      observe self node h =
        (call_builtin name vs, Enter node :: ts ++ [Invoke name vs]))).
Proof.
  intros node. split; [|split].
  - intros Hfunc. unfold observe, node. by destruct func; [|destruct (Hfunc id)|..].
  - intros name -> Hname. unfold observe, node. simpl.
    unfold _ALLOWED_FUNCS. by rewrite bool_decide_eq_false_2.
  - intros name -> Hname.
    assert (Hrun : observe self node h =
      let '(r, s) :=
        (let* args := each (_eval_expr self) args in
         match keywords with
         | _ :: _ => raise (Exc ValueError "Keyword arguments are not allowed.")
         | [] => tick (Invoke name args) ;; lift (call_builtin name args)
         end) (State h [Enter node]) in
      (r, log s)).
    { unfold observe, node. simpl. unfold _ALLOWED_FUNCS.
      by rewrite bool_decide_eq_true_2. }
    rewrite Hrun. clear Hrun. split; [|split].
    + intros e ts Hargs. unfold bind at 1. by rewrite each_run, Hargs.
    + intros vs ts Hargs Hkw. unfold bind at 1. rewrite each_run, Hargs.
      by destruct keywords.
    + intros vs ts Hargs ->. unfold bind at 1. by rewrite each_run, Hargs.
Qed.

End Calls.

(** ** Which functions an evaluation can invoke *)

Section Whitelist.
Context `{Host}.
Implicit Types (self : SafeEval) (h : gmap loc (gmap string value)).
Variable Q : event -> Prop.

Lemma framed_with_ret {A} (a : A) : framed_with Q (ret a).
Proof.
  intros h. exists (Ok a), []. split; [|done].
  intros l. unfold ret. by rewrite app_nil_r.
Qed.

Lemma framed_with_raise {A} (e : exn) : framed_with Q (raise (A := A) e).
Proof.
  intros h. exists (Raise e), []. split; [|done].
  intros l. unfold raise. by rewrite app_nil_r.
Qed.

Lemma framed_with_lift {A} (r : result A) : framed_with Q (lift r).
Proof.
  intros h. exists r, []. split; [|done].
  intros l. unfold lift. by rewrite app_nil_r.
Qed.

Lemma framed_with_tick (ev : event) : Q ev -> framed_with Q (tick ev).
Proof. intros Hev h. exists (Ok tt), [ev]. split; [done|]. by constructor. Qed.

Lemma framed_with_load (l0 : loc) : framed_with Q (load l0).
Proof.
  intros h. exists (Ok (h !!! l0)), []. split; [|done].
  intros l. unfold load. simpl. by rewrite app_nil_r.
Qed.

Lemma framed_with_bind {A B} (m : M A) (k : A -> M B) :
  framed_with Q m -> (forall a, framed_with Q (k a)) -> framed_with Q (bind m k).
Proof.
  intros Hm Hk h. destruct (Hm h) as (r & t & Hr & Ht). destruct r as [a|e].
  - destruct (Hk a h) as (r' & t' & Hr' & Ht'). exists r', (t ++ t'). split.
    + intros l. unfold bind. rewrite Hr, Hr'. by rewrite app_assoc.
    + by apply Forall_app.
  - exists (Raise e), t. split; [|done]. intros l. unfold bind. by rewrite Hr.
Qed.

End Whitelist.

Section WhitelistSafety.
Context `{Host}.
Implicit Types (self : SafeEval) (h : gmap loc (gmap string value)).

Create HintDb framed_with.
#[local] Hint Resolve framed_with_ret framed_with_raise framed_with_lift
  framed_with_load : framed_with.

Ltac fw_step :=
  repeat first
    [ apply framed_with_bind; [ | intros ? ]
    | apply framed_with_tick; exact I
    | progress eauto with framed_with
    | match goal with
      | |- framed_with _ (match ?x with _ => _ end) => destruct x
      end
    | match goal with
      | |- framed_with _ (if ?x then _ else _) => destruct x
      end ].

Lemma framed_with_each Q (visit : ast.expr -> M value) (l : list ast.expr) :
  Forall (fun a => framed_with Q (visit a)) l -> framed_with Q (each visit l).
Proof. induction 1; simpl; fw_step. Qed.

Lemma framed_with_chain Q (visit : ast.expr -> M value) (comps : list ast.expr) :
  Forall (fun a => framed_with Q (visit a)) comps ->
  forall ops cur, framed_with Q (chain visit comps ops cur).
Proof.
  induction 1 as [|c comps Hc _ IH]; intros ops cur.
  - destruct ops; simpl; fw_step.
  - destruct ops as [|o ops]; simpl; fw_step.
Qed.

Lemma framed_with_all_truthy Q (visit : ast.expr -> M value) (l : list ast.expr) :
  Forall (fun a => framed_with Q (visit a)) l -> framed_with Q (all_truthy visit l).
Proof. induction 1; simpl; fw_step. Qed.

Lemma framed_with_any_truthy Q (visit : ast.expr -> M value) (l : list ast.expr) :
  Forall (fun a => framed_with Q (visit a)) l -> framed_with Q (any_truthy visit l).
Proof. induction 1; simpl; fw_step. Qed.

#[local] Hint Resolve framed_with_each framed_with_chain framed_with_all_truthy
  framed_with_any_truthy : framed_with.

Lemma _ALLOWED_FUNCS_Some (name : string) f :
  _ALLOWED_FUNCS name = Some f ->
  name ∈ allowed_func_names /\ f = call_builtin name.
Proof.
  unfold _ALLOWED_FUNCS. case_bool_decide; [|done]. by intros [= <-].
Qed.

Lemma _eval_expr_whitelisted self (node : ast.expr) :
  framed_with whitelisted (_eval_expr self node).
Proof.
  induction node as [c|id|l o r IHl IHr|o e IH|f args kw IH|l ops comps IHl IH
                    |o values IH|t b e IHt IHb IHe|elts IH|kind]
    using ast.expr_ind; simpl.
  - fw_step.
  - fw_step.
  - fw_step.
  - fw_step.
  - apply framed_with_bind; [apply framed_with_tick; exact I|intros _].
    destruct f as [ |id| | | | | | | | ]; try solve [fw_step].
    destruct (_ALLOWED_FUNCS id) as [g|] eqn:Hid; [|fw_step].
    apply _ALLOWED_FUNCS_Some in Hid as [Hid _].
    apply framed_with_bind; [eauto with framed_with|intros vs].
    destruct kw; [|fw_step].
    apply framed_with_bind; [by apply framed_with_tick|intros _; fw_step].
  - fw_step.
    all: repeat match goal with
           | HF : Forall _ (_ :: _) |- _ => inversion_clear HF
           end; fw_step.
  - fw_step.
  - fw_step.
  - fw_step.
  - fw_step.
Qed.

Lemma observe_whitelisted self node h :
  Forall whitelisted (observe self node h).2.
Proof.
  destruct (_eval_expr_whitelisted self node h) as (r & t & Hr & Ht).
  unfold observe. by rewrite (Hr []).
Qed.

Lemma eval_body_whitelisted self body last s :
  exists t, log (eval_body self body last s).2 = log s ++ t /\ Forall whitelisted t.
Proof.
  revert last s. induction body as [|st body IH]; intros last s.
  - exists []. by rewrite app_nil_r.
  - assert (Hexpr : forall e (k : value -> state -> state),
              (forall v s1, log (k v s1) = log s1) ->
              forall last',
              exists t,
                log (match _eval_expr self e s with
                     | (Ok v, s1) => eval_body self body (last' v) (k v s1)
                     | (Raise x, s1) => (Raise x, s1)
                     end).2 = log s ++ t /\ Forall whitelisted t).
    { intros e k Hk last'. destruct s as [h l]. rewrite _eval_expr_run.
      pose proof (observe_whitelisted self e h) as Ht.
      destruct (observe self e h) as [[v|x] t]; simpl in *.
      - destruct (IH (last' v) (k v (State h (l ++ t)))) as (t' & Hlog & Ht').
        exists (t ++ t'). rewrite Hlog, Hk. simpl. rewrite app_assoc.
        split; [done|]. by apply Forall_app.
      - by exists t. }
    destruct st as [e|targets e|kind]; simpl.
    + unfold bind. apply (Hexpr e (fun _ s1 => s1)); done.
    + destruct targets as [|[ | x | | | | | | | | ] [|]];
        try (exists []; by rewrite app_nil_r).
      unfold bind at 1. unfold bind, setitem.
      apply (Hexpr e (fun v s1 => assigned self x v s1) (fun _ _ => eq_refl)
               (fun v => Some v)).
    + exists []. by rewrite app_nil_r.
Qed.

(** X1: whatever the expression or the program, the only functions an
    evaluation invokes are whitelisted ones: every invocation it logs names
    a function of the whitelist. *)
Theorem only_whitelisted_functions_invoked self :
  (forall node h, Forall whitelisted (observe self node h).2) /\
  (forall tree s,
     exists t, log (eval self tree s).2 = log s ++ t /\ Forall whitelisted t).
Proof.
  split; [apply observe_whitelisted|].
  intros [msg|body] s.
  - exists []. simpl. by rewrite app_nil_r.
  - rewrite eval_as_loop. apply eval_body_whitelisted.
Qed.

End WhitelistSafety.

(** ** What an evaluation reads *)

Section Coincidence.
Context `{Host}.
Implicit Types (self : SafeEval) (h : gmap loc (gmap string value)).

Lemma alike_ret h h' {A} (a : A) : alike h h' (ret a).
Proof. intros l. exists (Ok a), []. unfold ret. by rewrite app_nil_r. Qed.

Lemma alike_raise h h' {A} (e : exn) : alike h h' (raise (A := A) e).
Proof. intros l. exists (Raise e), []. unfold raise. by rewrite app_nil_r. Qed.

Lemma alike_lift h h' {A} (r : result A) : alike h h' (lift r).
Proof. intros l. exists r, []. unfold lift. by rewrite app_nil_r. Qed.

Lemma alike_tick h h' (ev : event) : alike h h' (tick ev).
Proof. intros l. by exists (Ok tt), [ev]. Qed.

Lemma alike_bind h h' {A B} (m : M A) (k : A -> M B) :
  alike h h' m -> (forall a, alike h h' (k a)) -> alike h h' (bind m k).
Proof.
  intros Hm Hk l. destruct (Hm l) as (r & t & Hr & Hr'). destruct r as [a|e].
  - destruct (Hk a (l ++ t)) as (r' & t' & Hk1 & Hk2). exists r', (t ++ t').
    unfold bind. rewrite Hr, Hr', Hk1, Hk2. by rewrite app_assoc.
  - exists (Raise e), t. unfold bind. by rewrite Hr, Hr'.
Qed.

Create HintDb alike.
#[local] Hint Resolve alike_ret alike_raise alike_lift alike_tick : alike.

Ltac alike_step :=
  repeat first
    [ apply alike_bind; [ | intros ? ]
    | progress eauto with alike
    | match goal with
      | |- alike _ _ (match ?x with _ => _ end) => destruct x
      end
    | match goal with
      | |- alike _ _ (if ?x then _ else _) => destruct x
      end ].

Lemma alike_each h h' (visit : ast.expr -> M value) (l : list ast.expr) :
  Forall (fun a => alike h h' (visit a)) l -> alike h h' (each visit l).
Proof. induction 1; simpl; alike_step. Qed.

Lemma alike_chain h h' (visit : ast.expr -> M value) (comps : list ast.expr) :
  Forall (fun a => alike h h' (visit a)) comps ->
  forall ops cur, alike h h' (chain visit comps ops cur).
Proof.
  induction 1 as [|c comps Hc _ IH]; intros ops cur.
  - destruct ops; simpl; alike_step.
  - destruct ops as [|o ops]; simpl; alike_step.
Qed.

Lemma alike_all_truthy h h' (visit : ast.expr -> M value) (l : list ast.expr) :
  Forall (fun a => alike h h' (visit a)) l -> alike h h' (all_truthy visit l).
Proof. induction 1; simpl; alike_step. Qed.

Lemma alike_any_truthy h h' (visit : ast.expr -> M value) (l : list ast.expr) :
  Forall (fun a => alike h h' (visit a)) l -> alike h h' (any_truthy visit l).
Proof. induction 1; simpl; alike_step. Qed.

#[local] Hint Resolve alike_each alike_chain alike_all_truthy alike_any_truthy
  : alike.

(** The operands of a list inherit what holds of all the names read. *)
Lemma Forall_names (R : string -> Prop) (P : ast.expr -> Prop) (l : list ast.expr) :
  Forall (fun a => (forall n, n ∈ names a -> R n) -> P a) l ->
  (forall n, n ∈ concat (map names l) -> R n) ->
  Forall P l.
Proof.
  induction 1 as [|a l Ha _ IH]; intros Hn; [done|].
  simpl in Hn. constructor.
  - apply Ha. intros n Hin. apply Hn, elem_of_app. by left.
  - apply IH. intros n Hin. apply Hn, elem_of_app. by right.
Qed.

Lemma same_names_alike self h h' (node : ast.expr) :
  (forall n, n ∈ names node ->
     environment self h !! n = environment self h' !! n) ->
  alike h h' (_eval_expr self node).
Proof.
  induction node as [c|id|l o r IHl IHr|o e IH|f args kw IH|l ops comps IHl IH
                    |o values IH|t b e IHt IHb IHe|elts IH|kind]
    using ast.expr_ind; simpl; intros Hn.
  - alike_step.
  - apply alike_bind; [alike_step|intros _].
    intros l. unfold bind, load, environment in *. simpl.
    rewrite <- (Hn id) by (by apply list_elem_of_here).
    destruct ((h !!! vars self) !! id) as [v|].
    + exists (Ok v), []. unfold ret. by rewrite app_nil_r.
    + destruct (_ALLOWED_CONSTS id) as [v|].
      * exists (Ok v), []. unfold ret. by rewrite app_nil_r.
      * eexists (Raise _), []. unfold raise. by rewrite app_nil_r.
  - assert (alike h h' (_eval_expr self l)).
    { apply IHl. intros n Hin. apply Hn, elem_of_app. by left. }
    assert (alike h h' (_eval_expr self r)).
    { apply IHr. intros n Hin. apply Hn, elem_of_app. by right. }
    alike_step.
  - specialize (IH Hn). alike_step.
  - pose proof (Forall_names _ _ _ IH Hn). alike_step.
  - assert (alike h h' (_eval_expr self l)).
    { apply IHl. intros n Hin. apply Hn, elem_of_app. by left. }
    assert (Hcomps : Forall (fun a => alike h h' (_eval_expr self a)) comps).
    { apply (Forall_names _ _ _ IH). intros n Hin. apply Hn, elem_of_app. by right. }
    alike_step.
    all: repeat match goal with
           | HF : Forall _ (_ :: _) |- _ => inversion_clear HF
           end; alike_step.
  - pose proof (Forall_names _ _ _ IH Hn). alike_step.
  - assert (alike h h' (_eval_expr self t)).
    { apply IHt. intros n Hin. apply Hn, elem_of_app. by left. }
    assert (alike h h' (_eval_expr self b)).
    { apply IHb. intros n Hin. apply Hn, elem_of_app. right.
      apply elem_of_app. by left. }
    assert (alike h h' (_eval_expr self e)).
    { apply IHe. intros n Hin. apply Hn, elem_of_app. right.
      apply elem_of_app. by right. }
    alike_step.
  - pose proof (Forall_names _ _ _ IH Hn). alike_step.
  - alike_step.
Qed.

(** Two computations that run alike give the same observation. *)
Lemma alike_observe self h h' (node : ast.expr) :
  alike h h' (_eval_expr self node) ->
  observe self node h = observe self node h'.
Proof.
  intros Halike. destruct (Halike []) as (r & t & Hr & Hr').
  unfold observe. by rewrite Hr, Hr'.
Qed.

(** X2: the outcome of an evaluation, and the order in which it proceeds,
    depend on the store only through the bindings of the names the
    expression reads: two stores in which [self.vars] agrees on those names
    give the same result and the same events. *)
Theorem evaluation_depends_on_names_read self h h' (node : ast.expr) :
  (forall n, n ∈ names node ->
     environment self h !! n = environment self h' !! n) ->
  observe self node h = observe self node h'.
Proof.
  intros Hn. apply alike_observe.
  by apply same_names_alike.
Qed.

(** The store in which [self.vars[x]] is [v]. *)
Lemma environment_after_setitem self h x v :
  environment self (<[vars self := <[x := v]> (environment self h)]> h) =
    <[x := v]> (environment self h).
Proof. unfold environment. by rewrite lookup_total_insert_eq. Qed.

(** X3: variables and functions live in separate tables: binding a
    variable that has the name of a function changes nothing about calls of
    that function, as long as the arguments do not read the variable. *)
Theorem variable_does_not_shadow_function self h f args keywords v :
  f ∉ concat (map names args) ->
  observe self (ast.Call (ast.Name f) args keywords)
    (<[vars self := <[f := v]> (environment self h)]> h) =
  observe self (ast.Call (ast.Name f) args keywords) h.
Proof.
  intros Hf. apply alike_observe, same_names_alike. simpl. intros n Hn.
  rewrite environment_after_setitem. apply lookup_insert_ne. by intros ->.
Qed.

End Coincidence.

(** ** Assignments *)

Section Assignments.
Context `{Host}.
Implicit Types (self : SafeEval) (s : state).

(** X4: after an assignment [x = e] has succeeded with the value [v], the
    name [x] evaluates to [v], and every expression that does not read [x]
    evaluates exactly as before the assignment. *)
Theorem assignment_then_lookup self x e s v s' :
  eval self (ast.Module_ [ast.Assign [ast.Name x] e]) s = (Ok (Some v), s') ->
  (observe self (ast.Name x) (heap s')).1 = Ok v /\
  (forall e', x ∉ names e' ->
     observe self e' (heap s') = observe self e' (heap s)).
Proof.
  rewrite eval_as_loop, eval_body_Assign. destruct s as [h l].
  rewrite _eval_expr_run. destruct (observe self e h).1 as [v'|]; [|done].
  intros [= -> <-]. simpl. split.
  - rewrite observe_Name. simpl.
    by rewrite environment_after_setitem, lookup_insert_eq.
  - intros e' Hx. apply alike_observe, same_names_alike. intros n Hn.
    rewrite environment_after_setitem. apply lookup_insert_ne. by intros ->.
Qed.

Lemma eval_body_targets self body last s :
  let s' := (eval_body self body last s).2 in
  (forall y, y ∉ omap target body ->
     environment self (heap s') !! y = environment self (heap s) !! y) /\
  dom (environment self (heap s)) ⊆ dom (environment self (heap s')).
Proof.
  revert last s. induction body as [|st body IH]; intros last s; [done|].
  change (st :: body) with ([st] ++ body). rewrite eval_body_app.
  destruct st as [e|tgts e|kind]; [| |done].
  - rewrite eval_body_Expr. destruct s as [h l]. rewrite _eval_expr_run.
    destruct (observe self e h).1 as [v|]; [|done].
    exact (IH (Some v) (State h (l ++ (observe self e h).2))).
  - destruct tgts as [|[ | x | | | | | | | | ] [|]]; try done.
    rewrite eval_body_Assign. destruct s as [h l]. rewrite _eval_expr_run.
    destruct (observe self e h).1 as [v|]; [|done].
    destruct (IH (Some v) (assigned self x v (State h (l ++ (observe self e h).2))))
      as [Hother Hdom].
    unfold assigned in *. simpl in *.
    rewrite environment_after_setitem in Hother, Hdom. split.
    + intros y Hy. apply not_elem_of_cons in Hy as [Hyx Hy].
      rewrite (Hother y Hy). by apply lookup_insert_ne.
    + etrans; [|exact Hdom]. rewrite dom_insert_L. apply union_subseteq_r.
Qed.

(** X5: a call of [eval] changes the binding of no name other than the
    targets of the program's assignment statements, and it never removes a
    binding: every name bound before is bound after. *)
Theorem eval_binds_only_targets self tree s :
  let s' := (eval self tree s).2 in
  (forall y, y ∉ targets tree ->
     environment self (heap s') !! y = environment self (heap s) !! y) /\
  dom (environment self (heap s)) ⊆ dom (environment self (heap s')).
Proof.
  destruct tree as [msg|body]; [done|]. rewrite eval_as_loop.
  apply eval_body_targets.
Qed.

Lemma eval_body_Some self body v s r s' :
  eval_body self body (Some v) s = (Ok r, s') -> exists v', r = Some v'.
Proof.
  revert v s. induction body as [|st body IH]; intros v s.
  - intros [= <- _]. by exists v.
  - destruct st as [e|tgts e|kind]; simpl; [| |done].
    + unfold bind. destruct (_eval_expr self e s) as [[v'|] s1]; [|done]. apply IH.
    + destruct tgts as [|[ | x | | | | | | | | ] [|]]; try done.
      unfold bind at 1. destruct (_eval_expr self e s) as [[v'|] s1]; [|done].
      unfold bind, setitem. simpl. apply IH.
Qed.

(** X6: [eval] returns [None] for the empty program and for no other: a
    program with at least one statement either fails or returns a value. *)
Theorem eval_none_iff_empty self body s :
  (eval self (ast.Module_ body) s).1 = Ok None <-> body = [].
Proof.
  split; [|by intros ->].
  rewrite eval_as_loop. destruct body as [|st body]; [done|]. intros Hnone.
  exfalso. destruct (eval_body self (st :: body) None s) as [r s'] eqn:E.
  simpl in Hnone. subst r.
  destruct st as [e|tgts e|kind]; simpl in E; [| |done].
  - unfold bind in E. destruct (_eval_expr self e s) as [[v|] s1]; [|done].
    by apply eval_body_Some in E as [v' ?].
  - destruct tgts as [|[ | x | | | | | | | | ] [|]]; try done.
    unfold bind at 1 in E. destruct (_eval_expr self e s) as [[v|] s1]; [|done].
    unfold bind, setitem in E. simpl in E. by apply eval_body_Some in E as [v' ?].
Qed.

(** X7: a statement that is not well formed -- several assignment
    targets, a target that is not a name, a statement that is neither an
    expression nor an assignment -- is refused with the message of its kind
    when the loop reaches it, without its right-hand side being evaluated:
    the call ends in exactly the state the statements before it left, and
    the statements after it are not run. *)
Theorem malformed_statement_refused self pre st post s last s1 msg :
  eval_body self pre None s = (Ok last, s1) ->
  refusal st = Some msg ->
  eval self (ast.Module_ (pre ++ st :: post)) s = (Raise (Exc ValueError msg), s1).
Proof.
  intros Hpre Hst. rewrite eval_as_loop, eval_body_app, Hpre.
  destruct st as [e|tgts e|kind]; [done| |by injection Hst as <-].
  destruct tgts as [|[ | x | | | | | | | | ] [|]]; simpl in *;
    by simplify_eq.
Qed.

(** C9, as amended: [SafeEval(variables)] keeps its bindings in a dictionary
    of its own, a new object that starts as a copy of the caller's mapping
    (or empty).  [eval] mutates that dictionary in place and no other: every
    dictionary that existed before the evaluator was made, the caller's
    mapping included, is unchanged after evaluation, whether it succeeds or
    fails.  Every assignment that is executed -- the statements before it
    and its right-hand side succeed -- leaves its name bound in the
    evaluator's dictionary when [eval] returns or raises, to the value
    assigned unless a later statement assigns the name again; whether the
    assignment is the last statement does not matter.  In particular a
    successful program that ends in an assignment leaves the value it
    returns bound to that name.  An assignment that comes after a failing
    statement is not executed: the dictionaries stay as the statements
    before the failing one left them. *)
Theorem evaluation_mutates_own_copy variables s ev s1 tree r s2 :
  __init__ variables s = (Ok ev, s1) ->
  eval ev tree s1 = (r, s2) ->
  ((vars ev ∉ dom (heap s)) /\
   environment ev (heap s1) =
     match variables with
     | None => ∅
     | Some caller => heap s !!! caller
     end) /\
  (forall l, l ∈ dom (heap s) -> heap s2 !! l = heap s !! l) /\
  (forall body x e v,
     tree = ast.Module_ (body ++ [ast.Assign [ast.Name x] e]) ->
     r = Ok (Some v) ->
     environment ev (heap s2) !! x = Some v) /\
  (forall pre x e post last sa v sb,
     tree = ast.Module_ (pre ++ ast.Assign [ast.Name x] e :: post) ->
     eval_body ev pre None s1 = (Ok last, sa) ->
     _eval_expr ev e sa = (Ok v, sb) ->
     is_Some (environment ev (heap s2) !! x) /\
     (x ∉ omap target post -> environment ev (heap s2) !! x = Some v)) /\
  (forall pre st post last sa e sb,
     tree = ast.Module_ (pre ++ st :: post) ->
     eval_body ev pre None s1 = (Ok last, sa) ->
     eval_body ev [st] last sa = (Raise e, sb) ->
     r = Raise e /\ heap s2 = heap sa).
Proof.
  intros Hinit Heval.
  assert (Hev : ev = {| vars := fresh (dom (heap s)) |} /\
          s1 = State (<[fresh (dom (heap s)) :=
                        match variables with
                        | None => ∅
                        | Some caller => heap s !!! caller
                        end]> (heap s)) (log s)).
  { destruct variables; by injection Hinit as <- <-. }
  destruct Hev as [-> ->].
  assert (Hfresh : fresh (dom (heap s)) ∉ dom (heap s)) by apply is_fresh.
  split; [|split; [|split; [|split]]].
  - split; [done|]. unfold environment. simpl. by rewrite lookup_total_insert_eq.
  - intros l Hl.
    assert (Hne : l <> fresh (dom (heap s))) by (by intros ->).
    destruct tree as [msg|body].
    + injection Heval as _ <-. simpl. by rewrite lookup_insert_ne.
    + rewrite eval_as_loop in Heval.
      apply (f_equal snd) in Heval. cbn [snd] in Heval. rewrite <- Heval.
      rewrite (eval_body_other_dicts {| vars := fresh (dom (heap s)) |}) by done.
      simpl. by rewrite lookup_insert_ne.
  - intros body x e v -> ->.
    rewrite eval_as_loop, eval_body_app in Heval.
    destruct (eval_body _ body None _) as [[last|ex] s1']; [|done].
    rewrite eval_body_Assign in Heval.
    destruct (_eval_expr _ e s1') as [[v'|ex] s2']; [|done].
    injection Heval as <- <-. unfold environment, assigned. simpl.
    by rewrite lookup_total_insert_eq, lookup_insert_eq.
  - intros pre x e post last sa v sb -> Hpre He.
    rewrite eval_as_loop, eval_body_app, Hpre in Heval.
    change (ast.Assign [ast.Name x] e :: post)
      with ([ast.Assign [ast.Name x] e] ++ post) in Heval.
    rewrite eval_body_app, eval_body_Assign, He in Heval.
    apply (f_equal snd) in Heval. cbn [snd] in Heval. subst s2.
    set (self := {| vars := fresh (dom (heap s)) |}).
    destruct (eval_body_targets self post (Some v) (assigned self x v sb))
      as [Hkeep Hdom].
    assert (Hx : environment self (heap (assigned self x v sb)) !! x = Some v).
    { unfold assigned. simpl.
      by rewrite environment_after_setitem, lookup_insert_eq. }
    split.
    + apply elem_of_dom, Hdom, elem_of_dom. by rewrite Hx.
    + intros Hlater. by rewrite Hkeep.
  - intros pre st post last sa e sb -> Hpre Hst.
    rewrite eval_as_loop, eval_body_app, Hpre in Heval.
    change (st :: post) with ([st] ++ post) in Heval.
    rewrite eval_body_app, Hst in Heval. injection Heval as <- <-.
    split; [done|]. by eapply failed_statement_heap.
Qed.

End Assignments.

(** ** The other node kinds *)

Section OtherNodes.
Context `{Host}.
Implicit Types (self : SafeEval) (h : gmap loc (gmap string value)).

Ltac enter :=
  unfold observe; simpl; unfold bind at 1, tick; simpl.

Ltac visit H :=
  unfold bind at 1; rewrite _eval_expr_run, H; simpl.

(** X8: a conditional expression evaluates its test and then only the
    branch the test selects; the other branch is not evaluated, whatever it
    would do.  A failing test ends the evaluation before either branch. *)
Theorem conditional_evaluates_one_branch self h test body orelse :
  let node := ast.IfExp test body orelse in
  (forall x t, observe self test h = (Ok x, t) -> op.truth x = true ->
     observe self node h =
       ((observe self body h).1, Enter node :: t ++ (observe self body h).2)) /\
  (forall x t, observe self test h = (Ok x, t) -> op.truth x = false ->
     observe self node h =
       ((observe self orelse h).1, Enter node :: t ++ (observe self orelse h).2)) /\
  (forall ex t, observe self test h = (Raise ex, t) ->
     observe self node h = (Raise ex, Enter node :: t)).
Proof.
  intros node. split; [|split].
  - intros x t Ht Hx. unfold node. enter. visit Ht.
    by rewrite Hx, _eval_expr_run.
  - intros x t Ht Hx. unfold node. enter. visit Ht.
    by rewrite Hx, _eval_expr_run.
  - intros ex t Ht. unfold node. enter. by visit Ht.
Qed.

Lemma left_to_right_length self h es vs ts :
  left_to_right self h es = (Ok vs, ts) -> length vs = length es.
Proof.
  revert vs ts. induction es as [|e es IH]; intros vs ts.
  - by intros [= <- _].
  - intros (v & t & vs' & ts' & _ & Hes & -> & _)%left_to_right_cons.
    simpl. f_equal. by eapply IH.
Qed.

Lemma observe_Tuple self h elts :
  observe self (ast.Tuple elts) h =
    (result_map VTuple (left_to_right self h elts).1,
     Enter (ast.Tuple elts) :: (left_to_right self h elts).2).
Proof.
  enter. unfold bind at 1. rewrite each_run.
  by destruct (left_to_right self h elts).1.
Qed.

(** X9: a tuple expression evaluates its elements left to right, stops at
    the first that fails, and otherwise returns the tuple of their values:
    a result always has exactly as many components as the expression has
    elements. *)
Theorem tuple_rule self h elts :
  let node := ast.Tuple elts in
  (forall vs ts, left_to_right self h elts = (Ok vs, ts) ->
     observe self node h = (Ok (VTuple vs), Enter node :: ts)) /\
  (forall ex ts, left_to_right self h elts = (Raise ex, ts) ->
     observe self node h = (Raise ex, Enter node :: ts)) /\
  (forall r t, observe self node h = (Ok r, t) ->
     exists vs, r = VTuple vs /\ length vs = length elts).
Proof.
  intros node. unfold node. rewrite observe_Tuple. split; [|split].
  - by intros vs ts ->.
  - by intros ex ts ->.
  - intros r t. destruct (left_to_right self h elts) as [[vs|ex] ts] eqn:E; [|done].
    intros [= <- _]. exists vs. split; [done|]. by eapply left_to_right_length.
Qed.

(** X10: a binary operation evaluates its left operand, then its right
    operand, and looks at the operator last.  A failing left operand ends
    the evaluation before the right one is touched; a failing operand is
    reported even when the operator is not allowed; and an operator outside
    the table ([@], the shifts, the bitwise operators) is refused by name
    once both operands have a value. *)
Theorem binop_operand_order self h l o r :
  let node := ast.BinOp l o r in
  (forall ex tl, observe self l h = (Raise ex, tl) ->
     observe self node h = (Raise ex, Enter node :: tl)) /\
  (forall a tl ex tr,
     observe self l h = (Ok a, tl) -> observe self r h = (Raise ex, tr) ->
     observe self node h = (Raise ex, Enter node :: tl ++ tr)) /\
  (forall a tl b tr,
     observe self l h = (Ok a, tl) -> observe self r h = (Ok b, tr) ->
     o ∈ [ast.MatMult; ast.LShift; ast.RShift; ast.BitOr; ast.BitXor; ast.BitAnd] ->
     observe self node h =
       (Raise (Exc ValueError ("Operator not allowed: " +:+ ast.operator_name o)),
        Enter node :: tl ++ tr)).
Proof.
  intros node. split; [|split].
  - intros ex tl Hl. unfold node. enter. by visit Hl.
  - intros a tl ex tr Hl Hr. unfold node. enter. visit Hl. by visit Hr.
  - intros a tl b tr Hl Hr Ho. unfold node.
    rewrite (observe_BinOp _ _ _ _ _ _ _ _ _ Hl Hr).
    repeat (apply elem_of_cons in Ho as [->|Ho]; [done|]).
    by apply elem_of_nil in Ho.
Qed.

(** X11: a unary operation evaluates its operand first and passes on its
    failure.  On an integer or a boolean, [+] gives the integer itself and
    [-] its opposite (so [-True] is [-1]); [not] and [~] are refused by
    name. *)
Theorem unary_rule self h e :
  let result o := observe self (ast.UnaryOp o e) h in
  (forall o ex t, observe self e h = (Raise ex, t) ->
     result o = (Raise ex, Enter (ast.UnaryOp o e) :: t)) /\
  (forall v t n, observe self e h = (Ok v, t) -> as_int v = Some n ->
     result ast.UAdd = (Ok (VInt n), Enter (ast.UnaryOp ast.UAdd e) :: t) /\
     result ast.USub = (Ok (VInt (- n)), Enter (ast.UnaryOp ast.USub e) :: t)) /\
  (forall v t, observe self e h = (Ok v, t) ->
     result ast.Not =
       (Raise (Exc ValueError "Unary operator not allowed: Not"),
        Enter (ast.UnaryOp ast.Not e) :: t) /\
     result ast.Invert =
       (Raise (Exc ValueError "Unary operator not allowed: Invert"),
        Enter (ast.UnaryOp ast.Invert e) :: t)).
Proof.
  intros result. unfold result. split; [|split].
  - intros o ex t He. enter. by visit He.
  - intros v t n He Hn. split; enter; visit He;
      unfold lift, op.pos, op.neg, op.unary; by rewrite Hn.
  - intros v t He. split; enter; by visit He.
Qed.

(** X12: the comparison operators [is], [is not], [in] and [not in] are
    refused: a comparison whose first operator is one of them fails with
    "Comparison operator not allowed.", after its first two operands have
    been evaluated. *)
Theorem identity_and_membership_refused self h left o ops c comps a t0 b tc :
  o ∈ [ast.Is; ast.IsNot; ast.In; ast.NotIn] ->
  observe self left h = (Ok a, t0) ->
  observe self c h = (Ok b, tc) ->
  observe self (ast.Compare left (o :: ops) (c :: comps)) h =
    (Raise (Exc ValueError "Comparison operator not allowed."),
     Enter (ast.Compare left (o :: ops) (c :: comps)) :: t0 ++ tc).
Proof.
  intros Ho Hleft Hc. unfold observe. rewrite compare_as_chain.
  unfold bind at 1, tick. simpl. visit Hleft. visit Hc.
  repeat (apply elem_of_cons in Ho as [->|Ho]; [done|]).
  by apply elem_of_nil in Ho.
Qed.

End OtherNodes.

(** ** Sessions *)

Section Sessions.
Context `{Shell}.
Implicit Types (evaluator : SafeEval) (s : state).


Lemma eval_whitelisted evaluator tree s :
  exists t, log (eval evaluator tree s).2 = log s ++ t /\ Forall whitelisted t.
Proof.
  destruct tree as [msg|body].
  - exists []. simpl. by rewrite app_nil_r.
  - rewrite eval_as_loop. apply eval_body_whitelisted.
Qed.


Lemma eval_source_whitelisted evaluator text s :
  exists t, log (eval_source evaluator text s).2 = log s ++ t /\
            Forall whitelisted t.
Proof.
  unfold eval_source. destruct (ast_parse text); [apply eval_whitelisted|].
  exists []. simpl. by rewrite app_nil_r.
Qed.

(** [print_items] writes to standard output only. *)
Lemma prompts_print_items (items : list (string * value)) :
  prompts (print_items items).1 = 0.
Proof.
  induction items as [|[k v] items IH]; [done|]. simpl.
  destruct (str_value v); [|done].
  by destruct (print_items items) as [outs r].
Qed.

(** When every value can be written, every item is. *)
Lemma print_items_all (items : list (string * value)) (texts : list string) :
  Forall2 (fun kv text => str_value kv.2 = Ok text) items texts ->
  print_items items =
    (zip_with (fun kv text => Stdout (kv.1 +:+ " = " +:+ text)) items texts,
     Ok tt).
Proof.
  induction 1 as [|[k v] text items texts Hv _ IH]; [done|].
  simpl in *. by rewrite Hv, IH.
Qed.

(** The first value that cannot be written ends the listing. *)
Lemma print_items_first_failure pre k v post (texts : list string) e :
  Forall2 (fun kv text => str_value kv.2 = Ok text) pre texts ->
  str_value v = Raise e ->
  print_items (pre ++ (k, v) :: post) =
    (zip_with (fun kv text => Stdout (kv.1 +:+ " = " +:+ text)) pre texts,
     Raise e).
Proof.
  intros Hpre Hv.
  induction Hpre as [|[k' v'] text pre texts Hv' _ IH]; simpl.
  - by rewrite Hv.
  - simpl in Hv'. by rewrite Hv', IH.
Qed.

(** The exception of a listing is that of [str] on one of the values. *)
Lemma print_items_Raise (items : list (string * value)) e :
  (print_items items).2 = Raise e ->
  exists k v, (k, v) ∈ items /\ str_value v = Raise e.
Proof.
  induction items as [|[k v] items IH]; [done|]. simpl.
  destruct (str_value v) as [text|e'] eqn:Hv.
  - destruct (print_items items) as [outs r]. simpl in *.
    intros (k' & v' & Hin & Hv')%IH. exists k', v'. split; [|done].
    by apply list_elem_of_further.
  - intros [= ->]. exists k, v. split; [apply list_elem_of_here|done].
Qed.

Lemma vars_listing_Raise (d : gmap string value) e :
  (vars_listing d).2 = Raise e ->
  exists k v, d !! k = Some v /\ str_value v = Raise e.
Proof.
  unfold vars_listing. destruct (map_to_list d) eqn:E; [done|].
  intros (k & v & Hin & Hv)%print_items_Raise. exists k, v. split; [|done].
  apply elem_of_map_to_list. revert Hin. unfold sorted_items.
  by rewrite merge_sort_Permutation.
Qed.

Lemma prompts_vars_listing (d : gmap string value) :
  prompts (vars_listing d).1 = 0.
Proof.
  unfold vars_listing. destruct (map_to_list d); [done|].
  apply prompts_print_items.
Qed.

(** The cases of one turn of the loop. *)
Lemma iteration_cases evaluator ev s :
  let '(out, c, s') := iteration evaluator ev s in
  (s' = s \/
   s' = (clear (vars evaluator) s).2 \/
   exists text, s' = (eval_source evaluator text s).2) /\
  prompts out = 1 /\
  (ends_session ev = true -> c = Break) /\
  (ends_session ev = false ->
   c = Continue \/
   exists e raw k v,
     c = Uncaught e /\ ev = Line raw /\ command raw = Some "vars" /\
     environment evaluator (heap s) !! k = Some v /\ str_value v = Raise e).
Proof.
  destruct ev as [raw| |]; simpl; [|repeat split; auto; discriminate..]. unfold command.
  destruct (String.eqb (str_strip raw) "") eqn:Hblank; [repeat split; auto; discriminate|].
  destruct (String.prefix ":" (str_strip raw)) eqn:Hcolon.
  - set (cmd := str_lower (str_strip (from_1 (str_strip raw)))).
    destruct (String.eqb_spec cmd "help") as [->|_]; [repeat split; auto; discriminate|].
    destruct (String.eqb_spec cmd "quit") as [->|_]; [repeat split; auto; discriminate|].
    destruct (String.eqb_spec cmd "vars") as [Hcmd|_].
    { pose proof (prompts_vars_listing (environment evaluator (heap s))) as Hp.
      pose proof (vars_listing_Raise (environment evaluator (heap s))) as Hr.
      destruct (vars_listing _) as [outs r]. simpl in Hp, Hr.
      split; [by auto|]. split; [unfold prompts in *; simpl; by rewrite Hp|].
      split; [done|]. intros _.
      destruct r as [[]|e]; [by left|]. right.
      destruct (Hr e eq_refl) as (k & v & Hk & Hv).
      exists e, raw, k, v. unfold command. by rewrite Hblank, Hcolon, <- Hcmd. }
    destruct (String.eqb_spec cmd "clear") as [->|_];
      repeat split; auto; discriminate.
  - destruct (eval_source evaluator (str_strip raw) s) as [[[v|]|e] s'] eqn:E;
      [destruct (str_value v)| |];
      (split; [right; right; exists (str_strip raw); by rewrite E|];
       repeat split; auto; discriminate).
Qed.


Lemma iteration_whitelisted evaluator ev s :
  exists t, log (iteration evaluator ev s).2 = log s ++ t /\ Forall whitelisted t.
Proof.
  pose proof (iteration_cases evaluator ev s) as Hc.
  destruct (iteration evaluator ev s) as [[out c] s'].
  destruct Hc as [[->|[->|[text ->]]] _]; simpl.
  - exists []. by rewrite app_nil_r.
  - exists []. by rewrite app_nil_r.
  - apply eval_source_whitelisted.
Qed.

Lemma repl_loop_cons evaluator ev rest s :
  repl_loop evaluator (ev :: rest) s =
    let '(out, c, s') := iteration evaluator ev s in
    match c with
    | Break => (out, Ok tt, s')
    | Uncaught e => (out, Raise e, s')
    | Continue =>
        let '(outs, r, s'') := repl_loop evaluator rest s' in
        (out ++ outs, r, s'')
    end.
Proof. done. Qed.


Lemma repl_loop_whitelisted evaluator stdin s :
  exists t, log (repl_loop evaluator stdin s).2 = log s ++ t /\
            Forall whitelisted t.
Proof.
  revert s. induction stdin as [|ev rest IH]; intros s.
  - exists []. simpl. by rewrite app_nil_r.
  - rewrite repl_loop_cons.
    destruct (iteration_whitelisted evaluator ev s) as (t & Hlog & Ht).
    destruct (iteration evaluator ev s) as [[out c] s']. simpl in Hlog.
    destruct c; [|by exists t..].
    destruct (IH s') as (t' & Hlog' & Ht').
    destruct (repl_loop evaluator rest s') as [[outs r] s'']. simpl in *.
    exists (t ++ t'). rewrite Hlog', Hlog, app_assoc. split; [done|].
    by apply Forall_app.
Qed.


(** What [SafeEval()] does to the state. *)
Lemma __init__None s :
  __init__ None s =
    (Ok {| vars := fresh (dom (heap s)) |},
     State (<[fresh (dom (heap s)) := ∅]> (heap s)) (log s)).
Proof. done. Qed.

(** X13: in a whole session, whatever is typed and whatever the parser
    makes of it, the only functions invoked are whitelisted ones; the same
    holds of the non-interactive run on command-line arguments. *)
Theorem session_invokes_only_whitelisted stdin argv s :
  (exists t, log (repl stdin s).2 = log s ++ t /\ Forall whitelisted t) /\
  (exists t, log (main argv stdin s).2 = log s ++ t /\ Forall whitelisted t).
Proof.
  assert (Hrepl : exists t, log (repl stdin s).2 = log s ++ t /\
                            Forall whitelisted t).
  { unfold repl. rewrite __init__None.
    destruct (repl_loop_whitelisted {| vars := fresh (dom (heap s)) |} stdin
                (State (<[fresh (dom (heap s)) := ∅]> (heap s)) (log s)))
      as (t & Hlog & Ht).
    destruct (repl_loop _ stdin _) as [[outs r] s']. by exists t. }
  split; [done|].
  destruct argv as [|prog [|a args]].
  - unfold main. destruct Hrepl as (t & Hlog & Ht).
    destruct (repl stdin s) as [[outs r] s']; by exists t.
  - unfold main. destruct Hrepl as (t & Hlog & Ht).
    destruct (repl stdin s) as [[outs r] s']; by exists t.
  - unfold main, bind. rewrite __init__None.
    destruct (eval_source_whitelisted {| vars := fresh (dom (heap s)) |}
                (String.concat " " (a :: args))
                (State (<[fresh (dom (heap s)) := ∅]> (heap s)) (log s)))
      as (t & Hlog & Ht).
    destruct (eval_source _ _ _) as [[[v|]|e] s'];
      [destruct (str_value v)| |]; by exists t.
Qed.



(** X16: once the session has ended -- at [:quit], at the end of the
    input, at an interrupt -- nothing more is read: what follows on
    standard input changes neither the output nor the state. *)
Theorem nothing_read_after_the_end evaluator pre ev post s :
  ends_session ev = true ->
  repl_loop evaluator (pre ++ ev :: post) s = repl_loop evaluator (pre ++ [ev]) s.
Proof.
  intros Hev. revert s. induction pre as [|ev' pre IH]; intros s.
  - simpl. pose proof (iteration_cases evaluator ev s) as Hc.
    destruct (iteration evaluator ev s) as [[out c] s'].
    destruct Hc as (_ & _ & Hend & _). by rewrite (Hend Hev).
  - rewrite <- !app_comm_cons, !repl_loop_cons.
    destruct (iteration evaluator ev' s) as [[out c] s'].
    destruct c; [|done..]. by rewrite IH.
Qed.

(** X17: [:clear] forgets every variable: after it the environment is
    empty, so [:vars] has nothing to list and a name evaluates only if it
    is one of the constants. *)
Theorem clear_forgets_every_variable evaluator raw s :
  command raw = Some "clear" ->
  let '(out, c, s') := iteration evaluator (Line raw) s in
  out = [Prompt ">> "; Stdout "Variables cleared."] /\
  c = Continue /\
  environment evaluator (heap s') = ∅ /\
  vars_listing (environment evaluator (heap s')) =
    ([Stdout "(no variables)"], Ok tt) /\
  (forall n,
     (observe evaluator (ast.Name n) (heap s')).1 =
       match _ALLOWED_CONSTS n with
       | Some v => Ok v
       | None => Raise (Exc ValueError ("Unknown variable or constant: " +:+ n))
       end).
Proof.
  unfold command. simpl.
  destruct (String.eqb (str_strip raw) ""); [done|].
  destruct (String.prefix ":" (str_strip raw)); [|done].
  intros [= ->]. simpl.
  assert (Henv : environment evaluator (<[vars evaluator := ∅]> (heap s)) = ∅).
  { unfold environment. by rewrite lookup_total_insert_eq. }
  repeat split; try done.
  - by rewrite Henv.
  - intros n. rewrite observe_Name. simpl. by rewrite Henv, lookup_empty.
Qed.

(** X18: commands and blank lines are never handed to the evaluator: a
    session of such lines evaluates no expression and invokes no
    function. *)
Theorem commands_are_not_evaluated evaluator stdin s :
  forallb silent stdin = true ->
  log (repl_loop evaluator stdin s).2 = log s.
Proof.
  assert (Hit : forall ev s0, silent ev = true ->
            log (iteration evaluator ev s0).2 = log s0).
  { intros [raw| |] s0; [|done..]. unfold silent, blank, command. simpl.
    destruct (String.eqb (str_strip raw) ""); [done|].
    destruct (String.prefix ":" (str_strip raw)); [|done]. intros _.
    destruct (String.eqb _ "help"); [done|].
    destruct (String.eqb _ "quit"); [done|].
    destruct (String.eqb _ "vars"); [by destruct (vars_listing _)|].
    by destruct (String.eqb _ "clear"). }
  revert s. induction stdin as [|ev rest IH]; intros s; [done|].
  simpl. intros [Hev Hrest]%andb_true_iff.
  change (log (repl_loop evaluator (ev :: rest) s).2 = log s).
  rewrite repl_loop_cons. specialize (Hit ev s Hev).
  destruct (iteration evaluator ev s) as [[out c] s']. simpl in Hit.
  destruct c; [|done..]. specialize (IH s' Hrest).
  destruct (repl_loop evaluator rest s') as [[outs r] s'']. simpl in *. congruence.
Qed.

Lemma key_le_total : Total (key_le (H := H)).
Proof. intros a b. apply String.leb_total. Qed.

(** X19: [:vars] goes through the bindings in the order of the names,
    every binding exactly once, and writes one line [name = value] for
    each; with no binding it says so.  When every value can be written the
    listing is complete; otherwise it stops at the first value that [str]
    refuses, with the lines of the bindings before it written and the
    exception of [str] raised. *)
Theorem vars_lists_bindings_in_name_order (d : gmap string value) :
  let line (kv : string * value) text := Stdout (kv.1 +:+ " = " +:+ text) in
  let written (kv : string * value) text := str_value kv.2 = Ok text in
  (d = ∅ -> vars_listing d = ([Stdout "(no variables)"], Ok tt)) /\
  (forall texts,
     d <> ∅ ->
     Forall2 written (sorted_items d) texts ->
     vars_listing d = (zip_with line (sorted_items d) texts, Ok tt)) /\
  (forall pre k v post texts e,
     sorted_items d = pre ++ (k, v) :: post ->
     Forall2 written pre texts ->
     str_value v = Raise e ->
     vars_listing d = (zip_with line pre texts, Raise e)) /\
  Sorted key_le (sorted_items d) /\
  NoDup (sorted_items d).*1 /\
  (forall k v, (k, v) ∈ sorted_items d <-> d !! k = Some v).
Proof.
  intros line written.
  assert (Hperm : sorted_items d ≡ₚ map_to_list d)
    by apply merge_sort_Permutation.
  assert (Hlisting : d <> ∅ -> vars_listing d = print_items (sorted_items d)).
  { intros Hd. unfold vars_listing.
    destruct (map_to_list d) eqn:E; [|done]. by apply map_to_list_empty_iff in E. }
  split; [|split; [|split; [|split; [|split]]]].
  - intros ->. unfold vars_listing. by rewrite map_to_list_empty.
  - intros texts Hd Htexts. rewrite (Hlisting Hd). by apply print_items_all.
  - intros pre k v post texts e Hitems Hpre Hv.
    rewrite Hlisting, Hitems; [by apply print_items_first_failure|].
    intros ->. unfold sorted_items in Hitems.
    rewrite map_to_list_empty in Hitems. by destruct pre.
  - apply (@Sorted_merge_sort _ key_le _ key_le_total).
  - rewrite Hperm. apply NoDup_fst_map_to_list.
  - intros k v. rewrite Hperm. apply elem_of_map_to_list.
Qed.

(** X20: run on command-line arguments, the program evaluates once and
    never prompts.  It ends with status 0 having written at most one line,
    on standard output, or with status 1 having written one line
    [Error: ...] on standard error and nothing on standard output; no
    exception is left uncaught.  The status is 1 exactly when the
    evaluation of the joined arguments failed, or it gave a value that
    [str] cannot write. *)
Theorem main_exit_status prog a args stdin s :
  let run :=
    eval_source {| vars := fresh (dom (heap s)) |}
      (String.concat " " (a :: args))
      (State (<[fresh (dom (heap s)) := ∅]> (heap s)) (log s)) in
  exists outs code,
    (main (prog :: a :: args) stdin s).1 = (outs, Ok code) /\
    prompts outs = 0 /\
    ((code = 0%Z /\ (outs = [] \/ exists text, outs = [Stdout text])) \/
     (code = 1%Z /\ exists msg, outs = [Stderr ("Error: " +:+ msg)])) /\
    (code = 1%Z <->
     (exists e, run.1 = Raise e) \/
     (exists v e, run.1 = Ok (Some v) /\ str_value v = Raise e)).
Proof.
  intros run. unfold main, bind. rewrite __init__None. fold run.
  destruct run as [[[v|]|e] s'] eqn:E; simpl.
  - destruct (str_value v) as [text|e] eqn:Hv.
    + exists [Stdout text], 0%Z. repeat split; try done.
      * left. split; [done|]. right. by eexists.
      * intros [[e ?]|(v' & e & [= <-] & Hv')]; [done|congruence].
    + exists [Stderr ("Error: " +:+ exc_msg e)], 1%Z. repeat split; try done.
      * right. split; [done|]. by eexists.
      * intros _. right. by exists v, e.
  - exists [], 0%Z. repeat split; try done.
    + left. split; [done|]. by left.
    + by intros [[e ?]|(v' & e & ? & _)].
  - exists [Stderr ("Error: " +:+ exc_msg e)], 1%Z. repeat split; try done.
    + right. split; [done|]. by eexists.
    + intros _. left. by exists e.
Qed.

End Sessions.
(** ** Closed instances

    The statements above on concrete programs, run in the host
    [exact_host] from the fresh session [SafeEval()]. *)

Import exact.

(** C1, the claim as stated fails on [max(abs(1), key=2)]: the keyword
    arguments make the call fail, but [abs] has been invoked before that. *)
Lemma keyword_failure_after_invocation :
  observe session.1 examples.max_abs_keyword (heap session.2) =
    (Raise (Exc ValueError "Keyword arguments are not allowed."),
     [Enter examples.max_abs_keyword; Enter examples.abs_call;
      Enter (examples.int 1); Invoke "abs" [VInt 1]]).
Proof. vm_compute. reflexivity. Qed.

Lemma call_whitelist_witness :
  let self := session.1 in
  let h := heap session.2 in
  observe self examples.attribute_call h =
    (Raise (Exc ValueError "Only direct function calls are allowed."),
     [Enter examples.attribute_call]) /\
  observe self examples.open_call h =
    (Raise (Exc ValueError "Function not allowed: open"),
     [Enter examples.open_call]) /\
  observe self examples.max_unknown h =
    (Raise (Exc ValueError "Unknown variable or constant: zzz"),
     [Enter examples.max_unknown; Enter (ast.Name "zzz")]) /\
  observe self examples.max_keyword h =
    (Raise (Exc ValueError "Keyword arguments are not allowed."),
     [Enter examples.max_keyword; Enter (examples.int 1)]) /\
  observe self examples.max_call h =
    (Ok (VInt 5),
     [Enter examples.max_call; Enter (examples.int 1); Enter (examples.int 5);
      Invoke "max" [VInt 1; VInt 5]]).
Proof.
  intros self h.
  assert (Hmax : "max" ∈ allowed_func_names).
  { unfold allowed_func_names. do 10 apply list_elem_of_further.
    apply list_elem_of_here. }
  assert (Hopen : "open" ∉ allowed_func_names).
  { unfold allowed_func_names. intros Hin.
    repeat (apply elem_of_cons in Hin as [Hin|Hin]; [discriminate Hin|]).
    by apply elem_of_nil in Hin. }
  split; [|split; [|split; [|split]]].
  - apply (call_whitelist self h (ast.OtherExpr "Attribute") [examples.int 4] []).
    intros name Hname. discriminate Hname.
  - destruct (call_whitelist self h (ast.Name "open") [examples.string_literal] [])
      as (_ & Hrefused & _).
    apply (Hrefused "open" eq_refl Hopen).
  - destruct (call_whitelist self h (ast.Name "max")
                [ast.Name "zzz"; examples.int 5] []) as (_ & _ & Hallowed).
    destruct (Hallowed "max" eq_refl Hmax) as (Hfail & _ & _).
    apply Hfail. vm_compute. reflexivity.
  - destruct (call_whitelist self h (ast.Name "max")
                [examples.int 1] [(Some "key", examples.int 2)]) as (_ & _ & Hallowed).
    destruct (Hallowed "max" eq_refl Hmax) as (_ & Hkeyword & _).
    apply (Hkeyword [VInt 1]); [vm_compute; reflexivity | discriminate].
  - destruct (call_whitelist self h (ast.Name "max")
                [examples.int 1; examples.int 5] []) as (_ & _ & Hallowed).
    destruct (Hallowed "max" eq_refl Hmax) as (_ & _ & Hcall).
    unfold examples.max_call.
    rewrite (Hcall [VInt 1; VInt 5] [Enter (examples.int 1); Enter (examples.int 5)]);
      [reflexivity | vm_compute; reflexivity | reflexivity].
Defined.

(** [7 OP 2] on integers, and the division [7 // 0]. *)
Lemma binop_native_result_witness :
  let h := heap session.2 in
  let self := session.1 in
  let outcome (a : Z) o (b : Z) :=
    (observe self (ast.BinOp (examples.int a) o (examples.int b)) h).1 in
  (outcome 7%Z ast.Add 2%Z = Ok (VInt 9) /\
   outcome 7%Z ast.Sub 2%Z = Ok (VInt 5) /\
   outcome 7%Z ast.Mult 2%Z = Ok (VInt 14) /\
   outcome 7%Z ast.FloorDiv 2%Z = Ok (VInt 3) /\
   outcome 7%Z ast.Mod 2%Z = Ok (VInt 1) /\
   outcome 7%Z ast.Pow 2%Z = Ok (VInt 49)) /\
  outcome 7%Z ast.Div 2%Z = op.truediv (VInt 7) (VInt 2) /\
  exists e, outcome 7%Z ast.FloorDiv 0%Z = Raise e /\
            is_ArithmeticError (exc_type e) = true.
Proof.
  intros h self outcome.
  assert (Hlit : forall n,
            observe self (examples.int n) h = (Ok (VInt n), [Enter (examples.int n)]))
    by reflexivity.
  destruct (binop_native_result self h (examples.int 7) (examples.int 2) _ _ _ _
              (Hlit 7%Z) (Hlit 2%Z) eq_refl eq_refl) as (Hnative & Hint & _).
  destruct (binop_native_result self h (examples.int 7) (examples.int 0) _ _ _ _
              (Hlit 7%Z) (Hlit 0%Z) eq_refl eq_refl) as (_ & _ & Hzero).
  destruct (Hint 7%Z 2%Z eq_refl eq_refl)
    as (Hadd & Hsub & Hmul & Hfloor & Hmod & Hpow).
  split; [|split].
  - split; [exact Hadd|]. split; [exact Hsub|]. split; [exact Hmul|].
    split; [|split].
    + apply Hfloor. discriminate.
    + apply Hmod. discriminate.
    + apply Hpow. discriminate.
  - apply Hnative.
  - apply (Hzero eq_refl). auto.
Defined.

(** [1 < 2 < 3] is [True]; [2 < 1 < zzz] is [False] and [zzz], which would
    fail, is not evaluated.  Each operator has its own meaning:
    [1 <= 1 == 1 != 2 >= 2 > 1] is [True], [1 == 2] and [2 != 2] are
    [False]. *)
Lemma chained_comparison_witness :
  let self := session.1 in
  let h := heap session.2 in
  observe self examples.one_two_three h =
    (Ok (VBool true),
     [Enter examples.one_two_three; Enter (examples.int 1);
      Enter (examples.int 2); Enter (examples.int 3)]) /\
  observe self examples.two_one_unknown h =
    (Ok (VBool false),
     [Enter examples.two_one_unknown; Enter (examples.int 2);
      Enter (examples.int 1)]) /\
  (exists vs ts,
     left_to_right self h [examples.int 2; examples.int 3] = (Ok vs, ts) /\
     links_hold (VInt 1) [ast.Lt; ast.Lt] vs = true) /\
  (observe self examples.six_links h).1 = Ok (VBool true) /\
  (observe self examples.one_eq_2 h).1 = Ok (VBool false) /\
  (observe self examples.two_ne_2 h).1 = Ok (VBool false) /\
  link_holds ast.Eq (VInt 1) (VInt 2) = false /\
  link_holds ast.Gt (VInt 2) (VInt 1) = true.
Proof.
  intros self h.
  destruct (chained_comparison self h (examples.int 1) [ast.Lt; ast.Lt]
              [examples.int 2; examples.int 3] (VInt 1) [Enter (examples.int 1)]
              eq_refl eq_refl) as (Htrue & _ & Honly & Hint).
  destruct (chained_comparison self h (examples.int 2) [ast.Lt; ast.Lt]
              [examples.int 1; ast.Name "zzz"] (VInt 2) [Enter (examples.int 2)]
              eq_refl eq_refl) as (_ & Hfalse & _).
  destruct (chained_comparison self h (examples.int 1)
              [ast.LtE; ast.Eq; ast.NotEq; ast.GtE; ast.Gt]
              [examples.int 1; examples.int 1; examples.int 2; examples.int 2;
               examples.int 1] (VInt 1) [Enter (examples.int 1)]
              eq_refl eq_refl) as (Hsix & _).
  destruct (chained_comparison self h (examples.int 1) [ast.Eq]
              [examples.int 2] (VInt 1) [Enter (examples.int 1)]
              eq_refl eq_refl) as (_ & Heq & _).
  destruct (chained_comparison self h (examples.int 2) [ast.NotEq]
              [examples.int 2] (VInt 2) [Enter (examples.int 2)]
              eq_refl eq_refl) as (_ & Hne & _).
  assert (H123 : observe self examples.one_two_three h =
            (Ok (VBool true),
             [Enter examples.one_two_three; Enter (examples.int 1);
              Enter (examples.int 2); Enter (examples.int 3)])).
  { apply (Htrue [VInt 2; VInt 3] [Enter (examples.int 2); Enter (examples.int 3)]);
      vm_compute; reflexivity. }
  split; [exact H123|]. split; [|split; [|split; [|split; [|split; [|split]]]]].
  - apply (Hfalse [] ast.Lt [ast.Lt] [] (examples.int 1) [ast.Name "zzz"] [] []
             (VInt 1) [Enter (examples.int 1)]); vm_compute; reflexivity.
  - destruct (Honly _ H123) as (vs & ts & Hvs & Hhold & _). by exists vs, ts.
  - unfold examples.six_links.
    rewrite (Hsix [VInt 1; VInt 1; VInt 2; VInt 2; VInt 1]
               (map Enter [examples.int 1; examples.int 1; examples.int 2;
                           examples.int 2; examples.int 1]));
      vm_compute; reflexivity.
  - unfold examples.one_eq_2.
    rewrite (Heq [] ast.Eq [] [] (examples.int 2) [] [] [] (VInt 2)
               [Enter (examples.int 2)]); vm_compute; reflexivity.
  - unfold examples.two_ne_2.
    rewrite (Hne [] ast.NotEq [] [] (examples.int 2) [] [] [] (VInt 2)
               [Enter (examples.int 2)]); vm_compute; reflexivity.
  - destruct (Hint 1%Z 2%Z) as (-> & _). reflexivity.
  - destruct (Hint 2%Z 1%Z) as (_ & _ & _ & _ & -> & _). reflexivity.
Defined.

(** [1 and 2] is [True], [1 and 0 and zzz] is [False], [0 or 0] is [False],
    [0 or 3 or zzz] is [True]: never the operand, and [zzz] is not
    reached. *)
Lemma boolop_normalised_witness :
  let self := session.1 in
  let h := heap session.2 in
  observe self examples.one_and_two h =
    (Ok (VBool true),
     [Enter examples.one_and_two; Enter (examples.int 1); Enter (examples.int 2)]) /\
  observe self examples.one_and_zero_and_unknown h =
    (Ok (VBool false),
     [Enter examples.one_and_zero_and_unknown; Enter (examples.int 1);
      Enter (examples.int 0)]) /\
  observe self examples.zero_or_zero h =
    (Ok (VBool false),
     [Enter examples.zero_or_zero; Enter (examples.int 0); Enter (examples.int 0)]) /\
  observe self examples.zero_or_three_or_unknown h =
    (Ok (VBool true),
     [Enter examples.zero_or_three_or_unknown; Enter (examples.int 0);
      Enter (examples.int 3)]) /\
  (VBool true = VBool true \/ VBool true = VBool false).
Proof.
  intros self h.
  destruct (boolop_normalised self h) as (Hand & Hand_stop & Hor & Hor_stop & Hbool).
  assert (H12 : observe self examples.one_and_two h =
            (Ok (VBool true),
             [Enter examples.one_and_two; Enter (examples.int 1);
              Enter (examples.int 2)])).
  { apply (Hand [examples.int 1; examples.int 2] [VInt 1; VInt 2]
             [Enter (examples.int 1); Enter (examples.int 2)]);
      vm_compute; reflexivity. }
  split; [exact H12|]. split; [|split; [|split]].
  - apply (Hand_stop [examples.int 1] (examples.int 0) [ast.Name "zzz"] [VInt 1]
             [Enter (examples.int 1)] (VInt 0) [Enter (examples.int 0)]);
      vm_compute; reflexivity.
  - apply (Hor [examples.int 0; examples.int 0] [VInt 0; VInt 0]
             [Enter (examples.int 0); Enter (examples.int 0)]);
      vm_compute; reflexivity.
  - apply (Hor_stop [examples.int 0] (examples.int 3) [ast.Name "zzz"] [VInt 0]
             [Enter (examples.int 0)] (VInt 3) [Enter (examples.int 3)]);
      vm_compute; reflexivity.
  - exact (Hbool _ _ _ _ H12).
Defined.

(** With [x] bound to [5]: [x] is [5], [pi] is the constant, [zzz] is
    unknown. *)
Lemma name_lookup_order_witness :
  let self := session.1 in
  let h := heap (eval self examples.x_is_5 session.2).2 in
  (environment self h !! "x" = Some (VInt 5) /\
   environment self h !! "pi" = None /\
   environment self h !! "zzz" = None) /\
  (observe self (ast.Name "x") h).1 = Ok (VInt 5) /\
  (observe self (ast.Name "pi") h).1 = Ok (VFloat math_pi) /\
  (observe self (ast.Name "e") h).1 = Ok (VFloat math_e) /\
  (observe self (ast.Name "tau") h).1 = Ok (VFloat math_tau) /\
  (observe self (ast.Name "zzz") h).1 =
    Raise (Exc ValueError "Unknown variable or constant: zzz").
Proof.
  intros self h.
  assert (Hx : environment self h !! "x" = Some (VInt 5)) by (vm_compute; reflexivity).
  assert (Hpi : environment self h !! "pi" = None) by (vm_compute; reflexivity).
  assert (Hzzz : environment self h !! "zzz" = None) by (vm_compute; reflexivity).
  assert (He : environment self h !! "e" = None) by (vm_compute; reflexivity).
  assert (Htau : environment self h !! "tau" = None) by (vm_compute; reflexivity).
  split; [by repeat split|]. split; [|split; [|split; [|split]]].
  - destruct (name_lookup_order self h "x") as (Henv & _). apply (Henv _ Hx).
  - destruct (name_lookup_order self h "pi") as (_ & Hconst & _).
    destruct (Hconst Hpi) as (Hconst_pi & _). apply (Hconst_pi eq_refl).
  - destruct (name_lookup_order self h "e") as (_ & Hconst & _).
    destruct (Hconst He) as (_ & Hconst_e & _). apply (Hconst_e eq_refl).
  - destruct (name_lookup_order self h "tau") as (_ & Hconst & _).
    destruct (Hconst Htau) as (_ & _ & Hconst_tau & _). apply (Hconst_tau eq_refl).
  - destruct (name_lookup_order self h "zzz") as (_ & Hconst & _).
    destruct (Hconst Hzzz) as (_ & _ & _ & Hunknown). apply Hunknown.
    intros Hin.
    repeat (apply elem_of_cons in Hin as [Hin|Hin]; [discriminate Hin|]).
    by apply elem_of_nil in Hin.
Defined.

(** [x = 1] followed by the statement [x + 1], and by the statement
    [y = x]. *)
Lemma sequence_result_witness :
  let self := session.1 in
  let s := session.2 in
  let body := [ast.Assign [ast.Name "x"] (examples.int 1)] in
  let s1 := (eval_body self body None s).2 in
  eval_body self body None s = (Ok (Some (VInt 1)), s1) /\
  (eval self (ast.Module_
     (body ++ [ast.Expr (ast.BinOp (ast.Name "x") ast.Add (examples.int 1))])) s).1 =
    Ok (Some (VInt 2)) /\
  (let '(r, s2) :=
     eval self (ast.Module_ (body ++ [ast.Assign [ast.Name "y"] (ast.Name "x")])) s in
   r = Ok (Some (VInt 1)) /\ environment self (heap s2) !! "y" = Some (VInt 1)).
Proof.
  intros self s body s1.
  assert (Hbody : eval_body self body None s = (Ok (Some (VInt 1)), s1))
    by (vm_compute; reflexivity).
  destruct (sequence_result self s) as (Hlast & _ & _).
  destruct (Hlast body _ _ Hbody) as (Hexpr & Hassign).
  split; [exact Hbody|]. split.
  - rewrite Hexpr. vm_compute. reflexivity.
  - rewrite Hassign. vm_compute. split; reflexivity.
Defined.

(** [x = 1; y = zzz; z = 3]: the call fails at [y = zzz], [x] stays bound
    to [1], neither [y] nor [z] is bound. *)
Lemma failure_keeps_earlier_assignments_witness :
  let self := session.1 in
  let s := session.2 in
  let s1 := (eval_body self [ast.Assign [ast.Name "x"] (examples.int 1)] None s).2 in
  exists s2,
    eval self examples.x_is_1_then_unknown_then_z s =
      (Raise (Exc ValueError "Unknown variable or constant: zzz"), s2) /\
    heap s2 = heap s1 /\
    environment self (heap s2) !! "x" = Some (VInt 1) /\
    environment self (heap s2) !! "y" = None /\
    environment self (heap s2) !! "z" = None.
Proof.
  intros self s s1.
  set (failing := ast.Assign [ast.Name "y"] (ast.Name "zzz")).
  set (s2 := (eval_body self [failing] (Some (VInt 1)) s1).2).
  assert (Hpre : eval_body self [ast.Assign [ast.Name "x"] (examples.int 1)] None s =
            (Ok (Some (VInt 1)), s1)) by (vm_compute; reflexivity).
  assert (Hst : eval_body self [failing] (Some (VInt 1)) s1 =
            (Raise (Exc ValueError "Unknown variable or constant: zzz"), s2))
    by (vm_compute; reflexivity).
  destruct (failure_keeps_earlier_assignments self
              [ast.Assign [ast.Name "x"] (examples.int 1)] failing
              [ast.Assign [ast.Name "z"] (examples.int 3)] s _ _ _ _ Hpre Hst)
    as (Heval & Hheap).
  exists s2. split; [exact Heval|]. split; [exact Hheap|].
  rewrite Hheap. vm_compute. by repeat split.
Defined.

(** C8, the claim as stated fails on the program ['x']: the string literal
    is not refused as a syntax error, it reaches [_eval_expr], which refuses
    it. *)
Lemma string_literal_reaches_evaluator :
  eval session.1 (ast.Module_ [ast.Expr examples.string_literal]) session.2 =
    (Raise (Exc ValueError "Only numeric and boolean constants are allowed."),
     State (heap session.2) [Enter examples.string_literal]).
Proof. vm_compute. reflexivity. Qed.

Lemma literal_rule_witness :
  let self := session.1 in
  let s := session.2 in
  _eval_expr self (examples.int 7) s =
    (Ok (VInt 7), State (heap s) [Enter (examples.int 7)]) /\
  _eval_expr self (ast.Constant (ast.CBool true)) s =
    (Ok (VBool true), State (heap s) [Enter (ast.Constant (ast.CBool true))]) /\
  _eval_expr self (ast.Constant ast.CNone) s =
    (Raise (Exc ValueError "Only numeric and boolean constants are allowed."),
     State (heap s) [Enter (ast.Constant ast.CNone)]).
Proof.
  intros self s. split; [|split].
  - apply (literal_rule self (ast.CInt 7) s). reflexivity.
  - apply (literal_rule self (ast.CBool true) s). reflexivity.
  - apply (literal_rule self ast.CNone s). reflexivity.
Defined.

(** C9, the claim as stated fails on a caller's mapping [{"y": 7}] passed to
    [SafeEval] and the program [x = 5]: the evaluator binds [x] in its own
    dictionary, the caller's mapping is as it was. *)
Lemma caller_mapping_not_mutated :
  let caller : loc := 1%positive in
  let s := State {[caller := {["y" := VInt 7]}]} [] in
  exists ev s1 s2,
    __init__ (Some caller) s = (Ok ev, s1) /\
    eval ev examples.x_is_5 s1 = (Ok (Some (VInt 5)), s2) /\
    environment ev (heap s2) !! "x" = Some (VInt 5) /\
    (heap s2 !!! caller) !! "x" = None /\
    heap s2 !! caller = heap s !! caller.
Proof.
  intros caller s.
  exists {| vars := 2%positive |}, (__init__ (Some caller) s).2,
    (eval {| vars := 2%positive |} examples.x_is_5 (__init__ (Some caller) s).2).2.
  vm_compute. by repeat split.
Qed.

(** [x = 5] binds [x] in the evaluator's copy and leaves the caller's
    mapping alone; [x = 5; 7] returns [7] and leaves [x] bound to [5];
    in [zzz; x = 5] the assignment is not executed and [x] stays unbound. *)
Lemma evaluation_mutates_own_copy_witness :
  let caller : loc := 1%positive in
  let s := State {[caller := {["y" := VInt 7]}]} [] in
  let ev := {| vars := 2%positive |} in
  let s1 := (__init__ (Some caller) s).2 in
  let s2 := (eval ev examples.x_is_5 s1).2 in
  let s3 := (eval ev examples.x_is_5_then_7 s1).2 in
  (__init__ (Some caller) s = (Ok ev, s1) /\
   eval ev examples.x_is_5 s1 = (Ok (Some (VInt 5)), s2) /\
   eval ev examples.x_is_5_then_7 s1 = (Ok (Some (VInt 7)), s3)) /\
  environment ev (heap s1) = heap s !!! caller /\
  heap s2 !! caller = heap s !! caller /\
  environment ev (heap s2) !! "x" = Some (VInt 5) /\
  environment ev (heap s3) !! "x" = Some (VInt 5) /\
  heap s3 !! caller = heap s !! caller /\
  heap (eval ev examples.unknown_then_x_is_5 s1).2 = heap s1 /\
  environment ev (heap (eval ev examples.unknown_then_x_is_5 s1).2) !! "x" = None.
Proof.
  intros caller s ev s1 s2 s3.
  assert (Hinit : __init__ (Some caller) s = (Ok ev, s1)) by (vm_compute; reflexivity).
  assert (Heval : eval ev examples.x_is_5 s1 = (Ok (Some (VInt 5)), s2))
    by (vm_compute; reflexivity).
  assert (Heval' : eval ev examples.x_is_5_then_7 s1 = (Ok (Some (VInt 7)), s3))
    by (vm_compute; reflexivity).
  destruct (evaluation_mutates_own_copy (Some caller) s ev s1 examples.x_is_5 _ s2
              Hinit Heval) as ((_ & Hcopy) & Hothers & Hbound & _).
  destruct (evaluation_mutates_own_copy (Some caller) s ev s1
              examples.x_is_5_then_7 _ s3 Hinit Heval')
    as (_ & Hothers' & _ & Hexecuted & _).
  destruct (evaluation_mutates_own_copy (Some caller) s ev s1
              examples.unknown_then_x_is_5 _ _ Hinit
              (surjective_pairing (eval ev examples.unknown_then_x_is_5 s1)))
    as (_ & _ & _ & _ & Hunreached).
  destruct (Hunreached [] (ast.Expr (ast.Name "zzz"))
              [ast.Assign [ast.Name "x"] (examples.int 5)] None s1
              (Exc ValueError "Unknown variable or constant: zzz")
              (eval_body ev [ast.Expr (ast.Name "zzz")] None s1).2
              eq_refl eq_refl) as [_ Hsame]; [vm_compute; reflexivity|].
  split; [by repeat split|]. split; [exact Hcopy|].
  split; [|split; [|split; [|split; [|split]]]].
  - apply Hothers. vm_compute. reflexivity.
  - apply (Hbound [] "x" (examples.int 5) (VInt 5)); reflexivity.
  - apply (Hexecuted [] "x" (examples.int 5) [ast.Expr (examples.int 7)] None s1
             (VInt 5) (_eval_expr ev (examples.int 5) s1).2);
      [reflexivity | reflexivity | vm_compute; reflexivity |].
    vm_compute. by intros ?%elem_of_nil.
  - apply Hothers'. vm_compute. reflexivity.
  - exact Hsame.
  - rewrite Hsame. vm_compute. reflexivity.
Defined.

(** [x + 1; zzz], a program without assignment, leaves the store alone. *)
Lemma expression_evaluation_preserves_environment_witness :
  let self := session.1 in
  let s := (eval self examples.x_is_5 session.2).2 in
  no_assignment examples.two_expressions = true /\
  heap (eval self examples.two_expressions s).2 = heap s /\
  heap (_eval_expr self examples.one_two_three s).2 = heap s.
Proof.
  intros self s.
  destruct (expression_evaluation_preserves_environment self) as (Hexpr & Hprog).
  split; [reflexivity|]. split.
  - apply Hprog. reflexivity.
  - apply Hexpr.
Defined.

(** ** Closed instances of the further properties *)

Import exact_shell.

(** [x * 2] with [x = 5] gives [10], with or without a binding of [y]. *)
Lemma evaluation_depends_on_names_read_witness :
  let self := session.1 in
  let h := heap (eval self examples.x_is_5 session.2).2 in
  let h' := <[vars self := <["y" := VInt 7]> (environment self h)]> h in
  let node := ast.BinOp (ast.Name "x") ast.Mult (examples.int 2) in
  observe self node h = observe self node h' /\
  (observe self node h').1 = Ok (VInt 10).
Proof.
  intros self h h' node.
  assert (Hsame : observe self node h = observe self node h').
  { apply evaluation_depends_on_names_read. intros n Hn.
    apply elem_of_cons in Hn as [->|Hn]; [vm_compute; reflexivity|].
    by apply elem_of_nil in Hn. }
  split; [exact Hsame|]. rewrite <- Hsame. vm_compute. reflexivity.
Defined.

(** After [abs = 5], [abs(1)] is still the call of [abs]. *)
Lemma variable_does_not_shadow_function_witness :
  let self := session.1 in
  let h := heap session.2 in
  let h' := <[vars self := <["abs" := VInt 5]> (environment self h)]> h in
  observe self examples.abs_call h' = observe self examples.abs_call h /\
  (observe self examples.abs_call h).1 = Ok (VInt 1).
Proof.
  intros self h h'. split; [|vm_compute; reflexivity].
  apply (variable_does_not_shadow_function self h "abs" [examples.int 1] [] (VInt 5)).
  simpl. apply not_elem_of_nil.
Defined.

(** After [x = 5]: [x] is [5], and [1 < 2 < 3] is evaluated as before. *)
Lemma assignment_then_lookup_witness :
  let self := session.1 in
  let s := session.2 in
  let s' := (eval self examples.x_is_5 s).2 in
  eval self examples.x_is_5 s = (Ok (Some (VInt 5)), s') /\
  (observe self (ast.Name "x") (heap s')).1 = Ok (VInt 5) /\
  observe self examples.one_two_three (heap s') =
    observe self examples.one_two_three (heap s).
Proof.
  intros self s s'.
  assert (Heval : eval self examples.x_is_5 s = (Ok (Some (VInt 5)), s'))
    by (vm_compute; reflexivity).
  destruct (assignment_then_lookup self "x" (examples.int 5) s (VInt 5) s' Heval)
    as (Hx & Hothers).
  split; [exact Heval|]. split; [exact Hx|]. apply Hothers.
  vm_compute. apply not_elem_of_nil.
Defined.

(** [x = 5] in a session where [y] is [7]: [y] stays [7], [x] and [y] are
    bound afterwards. *)
Lemma eval_binds_only_targets_witness :
  let self := session.1 in
  let s := State (<[vars self := {["y" := VInt 7]}]> (heap session.2)) [] in
  let s' := (eval self examples.x_is_5 s).2 in
("y" ∉ targets examples.x_is_5) /\
  environment self (heap s') !! "y" = Some (VInt 7) /\
  dom (environment self (heap s)) ⊆ dom (environment self (heap s')).
Proof.
  intros self s s'.
  assert (Hy : "y" ∉ targets examples.x_is_5).
  { simpl. intros Hin. apply elem_of_cons in Hin as [Hin|Hin]; [discriminate Hin|].
    by apply elem_of_nil in Hin. }
  destruct (eval_binds_only_targets self examples.x_is_5 s) as (Hother & Hdom).
  split; [exact Hy|]. split; [|exact Hdom].
  unfold s'. rewrite (Hother "y" Hy). vm_compute. reflexivity.
Defined.

Lemma eval_none_iff_empty_witness :
  let self := session.1 in
  (eval self (ast.Module_ []) session.2).1 = Ok None /\
  ((eval self examples.x_times_2 session.2).1 = Ok None -> False).
Proof.
  intros self. split.
  - by apply (eval_none_iff_empty self [] session.2).
  - intros Hnone.
    apply (eval_none_iff_empty self
             [ast.Expr (ast.BinOp (ast.Name "x") ast.Mult (examples.int 2))]
             session.2) in Hnone.
    discriminate Hnone.
Defined.

(** [x = 1; a = b = zzz; x = 2] fails at the second statement: [x] is [1],
    [zzz] was not looked up. *)
Lemma malformed_statement_refused_witness :
  let self := session.1 in
  let s := session.2 in
  let pre := [ast.Assign [ast.Name "x"] (examples.int 1)] in
  let s1 := (eval_body self pre None s).2 in
  eval self examples.x_is_1_then_two_targets s =
    (Raise (Exc ValueError "Only single-target assignment is allowed."), s1) /\
  environment self (heap s1) !! "x" = Some (VInt 1) /\
  log s1 = [Enter (examples.int 1)].
Proof.
  intros self s pre s1.
  assert (Hpre : eval_body self pre None s = (Ok (Some (VInt 1)), s1))
    by (vm_compute; reflexivity).
  split; [|split; vm_compute; reflexivity].
  apply (malformed_statement_refused self pre examples.two_targets
           [ast.Assign [ast.Name "x"] (examples.int 2)] s _ s1 _ Hpre).
  reflexivity.
Defined.

Lemma conditional_evaluates_one_branch_witness :
  let self := session.1 in
  let h := heap session.2 in
  observe self examples.taken_then h =
    (Ok (VInt 1),
     [Enter examples.taken_then; Enter (examples.int 1); Enter (examples.int 1)]) /\
  observe self examples.taken_else h =
    (Ok (VInt 3),
     [Enter examples.taken_else; Enter (examples.int 0); Enter (examples.int 3)]) /\
  observe self examples.failing_test h =
    (Raise (Exc ValueError "Unknown variable or constant: zzz"),
     [Enter examples.failing_test; Enter (ast.Name "zzz")]).
Proof.
  intros self h. split; [|split].
  - destruct (conditional_evaluates_one_branch self h (examples.int 1)
                (examples.int 1) (ast.Name "zzz")) as (Hthen & _ & _).
    apply (Hthen (VInt 1) [Enter (examples.int 1)]); reflexivity.
  - destruct (conditional_evaluates_one_branch self h (examples.int 0)
                (ast.Name "zzz") (examples.int 3)) as (_ & Helse & _).
    apply (Helse (VInt 0) [Enter (examples.int 0)]); reflexivity.
  - destruct (conditional_evaluates_one_branch self h (ast.Name "zzz")
                (examples.int 1) (examples.int 3)) as (_ & _ & Hfail).
    apply Hfail. vm_compute. reflexivity.
Defined.

Lemma tuple_rule_witness :
  let self := session.1 in
  let h := heap session.2 in
  observe self examples.pair_1_2 h =
    (Ok (VTuple [VInt 1; VInt 2]),
     [Enter examples.pair_1_2; Enter (examples.int 1); Enter (examples.int 2)]) /\
  observe self examples.tuple_with_unknown h =
    (Raise (Exc ValueError "Unknown variable or constant: zzz"),
     [Enter examples.tuple_with_unknown; Enter (examples.int 1);
      Enter (ast.Name "zzz")]) /\
  (exists vs, VTuple [VInt 1; VInt 2] = VTuple vs /\ length vs = 2).
Proof.
  intros self h.
  destruct (tuple_rule self h [examples.int 1; examples.int 2])
    as (Hok & _ & Hshape).
  destruct (tuple_rule self h [examples.int 1; ast.Name "zzz"; examples.int 2])
    as (_ & Hfail & _).
  assert (H12 : observe self examples.pair_1_2 h =
            (Ok (VTuple [VInt 1; VInt 2]),
             [Enter examples.pair_1_2; Enter (examples.int 1);
              Enter (examples.int 2)])).
  { apply (Hok [VInt 1; VInt 2]). vm_compute. reflexivity. }
  split; [exact H12|]. split.
  - apply Hfail. vm_compute. reflexivity.
  - apply (Hshape _ _ H12).
Defined.

(** [zzz << 1] and [1 << zzz] report the unknown name, [1 << 2] the
    operator. *)
Lemma binop_operand_order_witness :
  let self := session.1 in
  let h := heap session.2 in
  observe self examples.unknown_shift_1 h =
    (Raise (Exc ValueError "Unknown variable or constant: zzz"),
     [Enter examples.unknown_shift_1; Enter (ast.Name "zzz")]) /\
  observe self examples.one_shift_unknown h =
    (Raise (Exc ValueError "Unknown variable or constant: zzz"),
     [Enter examples.one_shift_unknown; Enter (examples.int 1);
      Enter (ast.Name "zzz")]) /\
  observe self examples.one_shift_2 h =
    (Raise (Exc ValueError "Operator not allowed: LShift"),
     [Enter examples.one_shift_2; Enter (examples.int 1); Enter (examples.int 2)]).
Proof.
  intros self h. split; [|split].
  - destruct (binop_operand_order self h (ast.Name "zzz") ast.LShift (examples.int 1))
      as (Hleft & _ & _).
    apply Hleft. vm_compute. reflexivity.
  - destruct (binop_operand_order self h (examples.int 1) ast.LShift (ast.Name "zzz"))
      as (_ & Hright & _).
    apply (Hright (VInt 1) [Enter (examples.int 1)]); vm_compute; reflexivity.
  - destruct (binop_operand_order self h (examples.int 1) ast.LShift (examples.int 2))
      as (_ & _ & Hop).
    apply (Hop (VInt 1) [Enter (examples.int 1)] (VInt 2) [Enter (examples.int 2)]);
      [reflexivity|reflexivity|].
    apply list_elem_of_further, list_elem_of_here.
Defined.

(** [-True] is [-1], [+True] is [1], [not True] and [~True] are refused,
    [-zzz] reports the unknown name. *)
Lemma unary_rule_witness :
  let self := session.1 in
  let h := heap session.2 in
  let yes := ast.Constant (ast.CBool true) in
  (observe self (ast.UnaryOp ast.USub yes) h).1 = Ok (VInt (-1)) /\
  (observe self (ast.UnaryOp ast.UAdd yes) h).1 = Ok (VInt 1) /\
  (observe self (ast.UnaryOp ast.Not yes) h).1 =
    Raise (Exc ValueError "Unary operator not allowed: Not") /\
  (observe self (ast.UnaryOp ast.Invert yes) h).1 =
    Raise (Exc ValueError "Unary operator not allowed: Invert") /\
  (observe self (ast.UnaryOp ast.USub (ast.Name "zzz")) h).1 =
    Raise (Exc ValueError "Unknown variable or constant: zzz").
Proof.
  intros self h yes.
  destruct (unary_rule self h yes) as (_ & Hint & Hrefused).
  destruct (Hint (VBool true) [Enter yes] 1%Z eq_refl eq_refl) as (Hpos & Hneg).
  destruct (Hrefused (VBool true) [Enter yes] eq_refl) as (Hnot & Hinvert).
  destruct (unary_rule self h (ast.Name "zzz")) as (Hfail & _ & _).
  split; [by rewrite Hneg|]. split; [by rewrite Hpos|].
  split; [by rewrite Hnot|]. split; [by rewrite Hinvert|].
  rewrite (Hfail ast.USub (Exc ValueError "Unknown variable or constant: zzz")
             [Enter (ast.Name "zzz")]); [reflexivity|].
  vm_compute. reflexivity.
Defined.

Lemma identity_and_membership_refused_witness :
  observe session.1 examples.one_is_2 (heap session.2) =
    (Raise (Exc ValueError "Comparison operator not allowed."),
     [Enter examples.one_is_2; Enter (examples.int 1); Enter (examples.int 2)]).
Proof.
  apply (identity_and_membership_refused session.1 (heap session.2)
           (examples.int 1) ast.Is [] (examples.int 2) [] (VInt 1)
           [Enter (examples.int 1)] (VInt 2) [Enter (examples.int 2)]);
    [apply list_elem_of_here|reflexivity|reflexivity].
Defined.



(** After [ :QUIT ] the line [x * 2] is not read. *)
Lemma nothing_read_after_the_end_witness :
  let quit := Line " :QUIT " in
  ends_session quit = true /\
  repl_loop session.1 [Line "x = 5"; quit; Line "x * 2"] session.2 =
    repl_loop session.1 [Line "x = 5"; quit] session.2 /\
  (repl_loop session.1 [Line "x = 5"; quit] session.2).1 =
    ([Prompt ">> "; Stdout "5"; Prompt ">> "; Stdout "Bye!"], Ok tt).
Proof.
  intros quit. split; [reflexivity|]. split.
  - apply (nothing_read_after_the_end session.1 [Line "x = 5"] quit
             [Line "x * 2"] session.2).
    reflexivity.
  - vm_compute. reflexivity.
Defined.

(** [:clear] after [x = 5]: [x] is unknown again. *)
Lemma clear_forgets_every_variable_witness :
  let self := session.1 in
  let s := (eval self examples.x_is_5 session.2).2 in
  let s' := (iteration self (Line ":clear") s).2 in
  command ":clear" = Some "clear" /\
  environment self (heap s) !! "x" = Some (VInt 5) /\
  environment self (heap s') = ∅ /\
  (observe self (ast.Name "x") (heap s')).1 =
    Raise (Exc ValueError "Unknown variable or constant: x").
Proof.
  intros self s s'.
  assert (Hcmd : command ":clear" = Some "clear") by reflexivity.
  pose proof (clear_forgets_every_variable self ":clear" s Hcmd) as Hclear.
  fold s' in Hclear.
  destruct (iteration self (Line ":clear") s) as [[out c] s''].
  destruct Hclear as (_ & _ & Henv & _ & Hnames).
  split; [exact Hcmd|]. split; [vm_compute; reflexivity|].
  split; [exact Henv|]. apply (Hnames "x").
Defined.

(** A blank line, [:help] and [:vars] evaluate nothing. *)
Lemma commands_are_not_evaluated_witness :
  let stdin := [Line "  "; Line ":help"; Line ":vars"] in
  forallb silent stdin = true /\
  log (repl_loop session.1 stdin session.2).2 = log session.2.
Proof.
  intros stdin. split; [reflexivity|].
  apply (commands_are_not_evaluated session.1 stdin session.2). reflexivity.
Defined.

(** With [x = 5] and [a = 1], [:vars] prints [a = 1] and then [x = 5].
    With [a = 1], [b = 2 ** 14285] and [c = 3] it prints [a = 1] and
    raises: [c = 3] is not printed. *)
Lemma vars_lists_bindings_in_name_order_witness :
  let d : gmap string value := {["x" := VInt 5; "a" := VInt 1]} in
  let big := VInt (2 ^ 14285) in
  let d' : gmap string value := {["c" := VInt 3; "a" := VInt 1; "b" := big]} in
  d <> ∅ /\
  vars_listing d = ([Stdout "a = 1"; Stdout "x = 5"], Ok tt) /\
  vars_listing (∅ : gmap string value) = ([Stdout "(no variables)"], Ok tt) /\
  ("x", VInt 5) ∈ sorted_items d /\
  sorted_items d' = [("a", VInt 1); ("b", big); ("c", VInt 3)] /\
  vars_listing d' = ([Stdout "a = 1"], Raise too_many_digits).
Proof.
  intros d big d'.
  assert (Hd : d <> ∅).
  { intros Hd. assert (Hx : d !! "x" = None) by (rewrite Hd; apply lookup_empty).
    vm_compute in Hx. discriminate Hx. }
  assert (Hitems : sorted_items d = [("a", VInt 1); ("x", VInt 5)])
    by (vm_compute; reflexivity).
  assert (Hitems' : sorted_items d' = [("a", VInt 1); ("b", big); ("c", VInt 3)])
    by (vm_compute; reflexivity).
  destruct (vars_lists_bindings_in_name_order d) as (_ & Hall & _ & _ & _ & Hin).
  destruct (vars_lists_bindings_in_name_order d') as (_ & _ & Hcut & _).
  destruct (vars_lists_bindings_in_name_order (∅ : gmap string value))
    as (Hempty & _).
  split; [exact Hd|]. split; [|split; [|split; [|split]]].
  - rewrite (Hall ["1"; "5"] Hd).
    + rewrite Hitems. reflexivity.
    + rewrite Hitems. repeat constructor.
  - apply Hempty. reflexivity.
  - apply Hin. vm_compute. reflexivity.
  - exact Hitems'.
  - apply (Hcut [("a", VInt 1)] "b" big [("c", VInt 3)] ["1"] too_many_digits).
    + exact Hitems'.
    + repeat constructor.
    + vm_compute. reflexivity.
Defined.

(** [calc.py x = 5] prints [5] and exits with 0; [calc.py zzz] writes the
    error to standard error and exits with 1; so does [calc.py 2 ** 14285],
    whose evaluation succeeds and whose value cannot be printed. *)
Lemma main_exit_status_witness :
  (main ["calc.py"; "x"; "="; "5"] [] s0).1 = ([Stdout "5"], Ok 0%Z) /\
  (main ["calc.py"; "zzz"] [] s0).1 =
    ([Stderr "Error: Unknown variable or constant: zzz"], Ok 1%Z) /\
  (main ["calc.py"; "2"; "**"; "14285"] [] s0).1 =
    ([Stderr ("Error: " +:+ exc_msg too_many_digits)], Ok 1%Z) /\
  (exists v, str_value v = Raise too_many_digits).
Proof.
  split; [|split; [|split]].
  - destruct (main_exit_status "calc.py" "x" ["="; "5"] [] s0)
      as (outs & code & Hmain & _).
    rewrite Hmain. vm_compute in Hmain. symmetry. exact Hmain.
  - destruct (main_exit_status "calc.py" "zzz" [] [] s0)
      as (outs & code & Hmain & _).
    rewrite Hmain. vm_compute in Hmain. symmetry. exact Hmain.
  - destruct (main_exit_status "calc.py" "2" ["**"; "14285"] [] s0)
      as (outs & code & Hmain & _).
    rewrite Hmain. vm_compute in Hmain. symmetry. exact Hmain.
  - destruct (main_exit_status "calc.py" "2" ["**"; "14285"] [] s0)
      as (outs & code & Hmain & _ & _ & Hstatus).
    assert (Hcode : code = 1%Z).
    { vm_compute in Hmain. by injection Hmain as _ <-. }
    apply Hstatus in Hcode as [[e He]|(v & e & Hv & Hstr)].
    + vm_compute in He. discriminate He.
    + exists v. rewrite Hstr. f_equal.
      assert (Hv' : v = VInt (2 ^ 14285)).
      { vm_compute in Hv. injection Hv as <-. vm_compute. reflexivity. }
      subst v. vm_compute in Hstr. by injection Hstr as <-.
Defined.
